(** * Observables of Yeti: tags, context and type guessing

    A shallow embedding of [core/observables/observable.py].

    - Times and durations are integers (seconds); [datetime.utcnow()] is the
      [now] argument of each operation.
    - The MongoDB document of an observable is the record [Observable.t];
      each atomic [modify] on it is a function on that record.
    - The tag catalog (the [Tag] collection) is explicit state, a list of
      [Tag.t] documents, threaded through [tag]. *)

From Stdlib Require Import String Ascii List Bool ZArith Lia Permutation Sorting OrdersEx.
Import ListNotations.
Open Scope string_scope.
Open Scope Z_scope.
Open Scope list_scope.

(** ** Python string helpers *)

(** [str.isspace] on one ASCII character: space, \t \n \v \f \r and the
    separators \x1c-\x1f. *)
Definition py_isspace (c : ascii) : bool :=
  let n := nat_of_ascii c in
  (n =? 32)%nat || ((9 <=? n)%nat && (n <=? 13)%nat)
  || ((28 <=? n)%nat && (n <=? 31)%nat).

(** [s.strip() == ''] *)
Definition is_blank (s : string) : bool :=
  forallb py_isspace (list_ascii_of_string s).

(** Python truthiness of an optional duration: [None] and [timedelta(0)]
    are false. *)
Definition truthy (d : option Z) : bool :=
  match d with
  | Some x => negb (x =? 0)
  | None => false
  end.

(** ** Documents *)

(** A catalog tag ([core.observables.Tag]). [produces] holds references to
    other catalog tags; a reference is identified by the tag's unique name. *)
Module Tag.
Record t := mk {
  name : string;
  replaces : list string;
  produces : list string;
  default_expiration : option Z;
  count : Z
}.
End Tag.

(** A tag applied to one observable ([core.observables.ObservableTag]). *)
Module ObservableTag.
Record t := mk {
  name : string;
  first_seen : Z;
  last_seen : Z;
  expiration : option Z;
  fresh : bool
}.
End ObservableTag.

(** A context entry: a Python dict with string keys and values, as an
    association list. *)
Definition Context := list (string * string).

Module Observable.
Record t := mk {
  value : string;
  context : list Context;
  tags : list ObservableTag.t;
  last_tagged : option Z
}.
End Observable.

Definition Catalog := list Tag.t.

Definition set_tags (o : Observable.t) (ts : list ObservableTag.t) : Observable.t :=
  Observable.mk (Observable.value o) (Observable.context o) ts (Observable.last_tagged o).

Definition set_context (o : Observable.t) (cs : list Context) : Observable.t :=
  Observable.mk (Observable.value o) cs (Observable.tags o) (Observable.last_tagged o).

(** Python exceptions raised by the operations. *)
Inductive error :=
| AssertionError
| ValidationError (msg : string)
| DoesNotExist
| MultipleObjectsReturned.

(** An operation's outcome: a returned value or a raised exception. *)
Inductive Exc (A : Type) :=
| Ret (a : A)
| Raise (e : error).
Arguments Ret {A} a.
Arguments Raise {A} e.

(** ** Tag-list primitives (atomic updates of the [tags] array) *)

(** The first entry named [n] ([tags.$] of a query on [tags__name]). *)
Definition lookup (n : string) (ts : list ObservableTag.t) : option ObservableTag.t :=
  find (fun e => String.eqb (ObservableTag.name e) n) ts.
Arguments lookup : simpl never.

Definition has_tag_name (n : string) (ts : list ObservableTag.t) : bool :=
  existsb (fun e => String.eqb (ObservableTag.name e) n) ts.

(** [modify({"tags__name": n}, set__tags__S__fresh=True,
    set__tags__S__last_seen=now)]: [None] when no document matched. *)
Fixpoint refresh (n : string) (now : Z) (ts : list ObservableTag.t)
  : option (list ObservableTag.t) :=
  match ts with
  | [] => None
  | e :: r =>
    if String.eqb (ObservableTag.name e) n
    then Some (ObservableTag.mk (ObservableTag.name e) (ObservableTag.first_seen e)
                 now (ObservableTag.expiration e) true :: r)
    else option_map (cons e) (refresh n now r)
  end.

(** [modify(pull__tags__name=n)] *)
Definition pull (n : string) (ts : list ObservableTag.t) : list ObservableTag.t :=
  filter (fun e => negb (String.eqb (ObservableTag.name e) n)) ts.

(** Modelled from the spec: the defaults of [ObservableTag] (declared in
    core/observables/tag.py, not in src): a new application has
    [firstSeen = lastSeen = now] and [fresh = true]. *)
Definition new_observable_tag (n : string) (expiration : option Z) (now : Z)
  : ObservableTag.t :=
  ObservableTag.mk n now now expiration true.

(** ** Catalog primitives *)

(** [tag.modify(inc__count=1)] *)
Definition inc_count (n : string) (cat : Catalog) : Catalog :=
  map (fun t => if String.eqb (Tag.name t) n
                then Tag.mk (Tag.name t) (Tag.replaces t) (Tag.produces t)
                            (Tag.default_expiration t) (Tag.count t + 1)
                else t) cat.

(** Modelled from the spec: the defaults of [Tag] (core/observables/tag.py,
    not in src): a tag created on first application has no aliases, no
    derived tags, no default expiration and a zero usage count. *)
Definition new_tag (n : string) : Tag.t := Tag.mk n [] [] None 0.

(** [Tag.get_or_create(name=n)] *)
Definition get_or_create (cat : Catalog) (n : string) : Tag.t * Catalog :=
  match find (fun t => String.eqb (Tag.name t) n) cat with
  | Some t => (t, cat)
  | None => (new_tag n, cat ++ [new_tag n])
  end.

(** [try: Tag.objects.get(replaces=n) except DoesNotExist:
    Tag.get_or_create(name=n)]; [get] raises [MultipleObjectsReturned]
    when two tags replace [n]. *)
Definition resolve (cat : Catalog) (n : string) : Exc (Tag.t * Catalog) :=
  match filter (fun t => existsb (String.eqb n) (Tag.replaces t)) cat with
  | [] => Ret (get_or_create cat n)
  | [t] => Ret (t, cat)
  | _ => Raise MultipleObjectsReturned
  end.

(** ** [Observable.tag] *)

Section Engine.

(** [Tag.clean] (core/observables/tag.py, not in src) normalises a tag
    name; every theorem about [tag] holds for any normaliser. *)
Variable clean : string -> string.

(** One iteration of [for tag in extra_tags]: refresh the entry if present,
    otherwise push a new one and bump the catalog counter. *)
Definition apply_one (expiration : option Z) (now : Z)
  (st : list ObservableTag.t * Catalog) (n : string) : list ObservableTag.t * Catalog :=
  let (ts, cat) := st in
  match refresh n now ts with
  | Some ts' => (ts', cat)
  | None => (ts ++ [new_observable_tag n expiration now], inc_count n cat)
  end.

Fixpoint apply_all (expiration : option Z) (now : Z) (ns : list string)
  (st : list ObservableTag.t * Catalog) : list ObservableTag.t * Catalog :=
  match ns with
  | [] => st
  | n :: r => apply_all expiration now r (apply_one expiration now st n)
  end.

(** [tag.produces + [tag]] *)
Definition extra_tags (t : Tag.t) : list string := Tag.produces t ++ [Tag.name t].

(** The loop [for new_tag in new_tags]; [expiration] is the variable of the
    enclosing call, overwritten by [if not expiration: expiration =
    tag.default_expiration]. The flag is [tagged]. *)
Fixpoint tag_loop (cat : Catalog) (ts : list ObservableTag.t) (new_tags : list string)
  (expiration : option Z) (now : Z) (tagged : bool)
  : Exc (list ObservableTag.t * Catalog * bool) :=
  match new_tags with
  | [] => Ret (ts, cat, tagged)
  | nt :: rest =>
    if is_blank nt then tag_loop cat ts rest expiration now tagged
    else
      match resolve cat (clean nt) with
      | Raise e => Raise e
      | Ret (t, cat1) =>
        let expiration' := if truthy expiration then expiration
                           else Tag.default_expiration t in
        let (ts', cat2) := apply_all expiration' now (extra_tags t) (ts, cat1) in
        tag_loop cat2 ts' rest expiration' now true
      end
  end.

(** [remove = set([t.name for t in self.tags]) - set(new_tags)] *)
Definition strict_remove (new_tags : list string) (ts : list ObservableTag.t) : list string :=
  filter (fun n => negb (existsb (String.eqb n) new_tags)) (map ObservableTag.name ts).

(** [for tag in remove: self.modify(pull__tags__name=tag)] *)
Definition strict_prune (new_tags : list string) (ts : list ObservableTag.t)
  : list ObservableTag.t :=
  fold_left (fun acc n => pull n acc) (strict_remove new_tags ts) ts.

(** [Observable.tag(new_tags, strict, expiration)], returning the reloaded
    observable and the catalog. The entity auto-linking of the loop writes
    to the graph store only and is left out. *)
Definition tag (cat : Catalog) (o : Observable.t) (new_tags : list string)
  (strict : bool) (expiration : option Z) (now : Z) : Exc (Observable.t * Catalog) :=
  let ts0 := if strict then strict_prune new_tags (Observable.tags o)
             else Observable.tags o in
  match tag_loop cat ts0 new_tags expiration now false with
  | Raise e => Raise e
  | Ret (ts, cat', tagged) =>
    Ret (Observable.mk (Observable.value o) (Observable.context o) ts
           (if tagged then Some now else Observable.last_tagged o), cat')
  end.

End Engine.

(** ** The other operations on an observable *)

(** [Observable.get_tags(fresh)] *)
Definition get_tags (o : Observable.t) (fresh : bool) : list string :=
  map ObservableTag.name
    (filter (fun t => ObservableTag.fresh t || negb fresh) (Observable.tags o)).

(** [Observable.change_tag(old_tag, new_tag)]. The first [modify] matches
    when some entry is named [old_tag] and none is named [new_tag]; it then
    renames the first [old_tag] entry ([tags.$]). *)
Fixpoint rename_first (old_tag new_tag : string) (ts : list ObservableTag.t)
  : list ObservableTag.t :=
  match ts with
  | [] => []
  | e :: r =>
    if String.eqb (ObservableTag.name e) old_tag
    then ObservableTag.mk new_tag (ObservableTag.first_seen e) (ObservableTag.last_seen e)
           (ObservableTag.expiration e) (ObservableTag.fresh e) :: r
    else e :: rename_first old_tag new_tag r
  end.

(** [modify({"tags__name": n}, set__tags__S__last_seen=now)] *)
Fixpoint touch_first (n : string) (now : Z) (ts : list ObservableTag.t)
  : list ObservableTag.t :=
  match ts with
  | [] => []
  | e :: r =>
    if String.eqb (ObservableTag.name e) n
    then ObservableTag.mk (ObservableTag.name e) (ObservableTag.first_seen e) now
           (ObservableTag.expiration e) (ObservableTag.fresh e) :: r
    else e :: touch_first n now r
  end.

Definition change_tag (o : Observable.t) (old_tag new_tag : string) (now : Z)
  : Observable.t :=
  let ts := Observable.tags o in
  if has_tag_name old_tag ts && negb (has_tag_name new_tag ts)
  then set_tags o (rename_first old_tag new_tag ts)
  else set_tags o (touch_first new_tag now (pull old_tag ts)).

(** [Observable.expire_tags()]: [if tag.expiration and
    (tag.last_seen + tag.expiration) < now: tag.fresh = False]. *)
Definition expire_tag (now : Z) (e : ObservableTag.t) : ObservableTag.t :=
  let expired :=
    match ObservableTag.expiration e with
    | Some d => truthy (Some d) && (ObservableTag.last_seen e + d <? now)
    | None => false
    end in
  if expired
  then ObservableTag.mk (ObservableTag.name e) (ObservableTag.first_seen e)
         (ObservableTag.last_seen e) (ObservableTag.expiration e) false
  else e.

Definition expire_tags (o : Observable.t) (now : Z) : Observable.t :=
  set_tags o (map (expire_tag now) (Observable.tags o)).

(** [Tag.objects.get(name=n)] *)
Definition get_by_name (cat : Catalog) (n : string) : Exc Tag.t :=
  match find (fun t => String.eqb (Tag.name t) n) cat with
  | Some t => Ret t
  | None => Raise DoesNotExist
  end.

(** A Python dict with string keys and integer values: [d.get(k, 0)] and
    [d[k] = v] (an existing key keeps its position). *)
Definition dict_get (d : list (string * Z)) (k : string) : Z :=
  match find (fun kv => String.eqb (fst kv) k) d with
  | Some kv => snd kv
  | None => 0
  end.

Definition dict_set (d : list (string * Z)) (k : string) (v : Z) : list (string * Z) :=
  if existsb (fun kv => String.eqb (fst kv) k) d
  then map (fun kv => if String.eqb (fst kv) k then (k, v) else kv) d
  else d ++ [(k, v)].

(** [for produces in tag.produces:
       new_tags[produces] = new_tags.get(tag, 0) + 1]
    The keys of [new_tags] are [Tag] documents, identified here by their
    unique names. *)
Definition count_produces (d : list (string * Z)) (t : Tag.t) : list (string * Z) :=
  fold_left (fun acc p => dict_set acc p (dict_get acc (Tag.name t) + 1)) (Tag.produces t) d.

Fixpoint find_tags_loop (cat : Catalog) (ts : list ObservableTag.t) (d : list (string * Z))
  : Exc (list (string * Z)) :=
  match ts with
  | [] => Ret d
  | e :: r =>
    match get_by_name cat (ObservableTag.name e) with
    | Raise err => Raise err
    | Ret t => find_tags_loop cat r (count_produces d t)
    end
  end.

(** [Observable.find_tags()] *)
Definition find_tags (cat : Catalog) (o : Observable.t) : Exc (list (string * Z)) :=
  match find_tags_loop cat (Observable.tags o) [] with
  | Raise err => Raise err
  | Ret d =>
    let localtags := map ObservableTag.name (Observable.tags o) in
    Ret (filter (fun kv => negb (existsb (String.eqb (fst kv)) localtags)) d)
  end.

(** [Observable.add_context(context, replace_source)]: the persisted
    observable after the call and the call's outcome. *)
Fixpoint insert_item (kv : string * string) (l : Context) : Context :=
  match l with
  | [] => [kv]
  | kv' :: r => if String.ltb (fst kv') (fst kv) then kv' :: insert_item kv r
                else kv :: l
  end.

(** [{k: v for k, v in sorted(context.items(), key=operator.itemgetter(0))}] *)
Definition sort_items (c : Context) : Context := fold_right insert_item [] c.

Fixpoint context_eqb (a b : Context) : bool :=
  match a, b with
  | [], [] => true
  | (k, v) :: a', (k', v') :: b' => String.eqb k k' && String.eqb v v' && context_eqb a' b'
  | _, _ => false
  end.

Definition dict_lookup (c : Context) (k : string) : option string :=
  option_map snd (find (fun kv => String.eqb (fst kv) k) c).

(** [modify(pull__context__source=s)] *)
Definition pull_source (s : string) (cs : list Context) : list Context :=
  filter (fun c => match dict_lookup c "source" with
                   | Some s' => negb (String.eqb s' s)
                   | None => true
                   end) cs.

(** [modify(add_to_set__context=c)] *)
Definition add_to_set (c : Context) (cs : list Context) : list Context :=
  if existsb (context_eqb c) cs then cs else cs ++ [c].

Definition add_context (o : Observable.t) (context : Context)
  (replace_source : option string) : Observable.t * Exc Observable.t :=
  if negb (existsb (fun kv => String.eqb (fst kv) "source") context)
  then (o, Raise AssertionError)
  else
    let c := sort_items context in
    let o1 := match replace_source with
              | Some rs => if String.eqb rs "" then o
                           else set_context o (pull_source rs (Observable.context o))
              | None => o
              end in
    let o2 := set_context o1 (add_to_set c (Observable.context o1)) in
    (o2, Ret o2).

(** ** [Observable.guess_type] *)

(** The concrete observable classes scanned by [guess_type]. *)
Inductive variant := Url | Ip | Email | Hostname | Hash.

Section GuessType.

(** [t.check_type(string)] of each class (core/observables/*.py, not in
    src); the theorems hold for any checks. *)
Variable check_type : variant -> string -> bool.

(** [Ret (Some t)]: returns class [t]; [Ret None]: falls off the end of the
    function and returns [None]. *)
Definition guess_type (s : string) : Exc (option variant) :=
  if negb (String.eqb s "") && negb (is_blank s) then
    match find (fun t => check_type t s) [Url; Ip; Email; Hostname; Hash] with
    | Some t => Ret (Some t)
    | None => Raise (ValidationError (s ++ " was not recognized as a viable datatype")%string)
    end
  else Ret None.

End GuessType.

(** ** Further operations of [Observable] *)

(** [Observable.has_tag(tag_to_search)] *)
Definition has_tag (o : Observable.t) (tag_to_search : string) : bool :=
  has_tag_name tag_to_search (Observable.tags o).

(** [Observable.untag(tags)]: one [pull__tags__name] per name. *)
Definition untag (o : Observable.t) (tags : list string) : Observable.t :=
  set_tags o (fold_left (fun acc n => pull n acc) tags (Observable.tags o)).

(** [Observable.fresh_tags()] *)
Definition fresh_tags (o : Observable.t) : list ObservableTag.t :=
  filter ObservableTag.fresh (Observable.tags o).

(** [Observable.get_last_tagged()]: the persisted observable after the call
    and the returned time; [datetime(1970, 1, 1)] is time 0. *)
Definition get_last_tagged (o : Observable.t) : Observable.t * Z :=
  match Observable.last_tagged o with
  | None =>
    let last := fold_left (fun l t => if ObservableTag.last_seen t >? l
                                      then ObservableTag.last_seen t else l)
                  (Observable.tags o) 0 in
    (Observable.mk (Observable.value o) (Observable.context o) (Observable.tags o)
       (Some last), last)
  | Some l => (o, l)
  end.

(** [Observable.change_all_tags(old_tags, new_tag)] over the collection of
    observables: the ones returned by [Observable.objects(tags__name__in=
    old_tags)] get [o.change_tag(old_tag, new_tag)] for each old tag. *)
Definition change_all_tags (db : list Observable.t) (old_tags : list string)
  (new_tag : string) (now : Z) : list Observable.t :=
  map (fun o => if existsb (fun n => has_tag_name n (Observable.tags o)) old_tags
                then fold_left (fun o' old_tag => change_tag o' old_tag new_tag now) old_tags o
                else o) db.

(** Modelled from the spec: [Tag.clean] (core/observables/tag.py, not in
    src) normalises a name's case and surrounding whitespace; used only
    to evaluate examples. *)
Definition lower_ascii (c : ascii) : ascii :=
  let n := nat_of_ascii c in
  if ((65 <=? n)%nat && (n <=? 90)%nat) then ascii_of_nat (n + 32) else c.

Fixpoint drop_space (l : list ascii) : list ascii :=
  match l with
  | c :: r => if py_isspace c then drop_space r else l
  | [] => []
  end.

Definition clean_spec (s : string) : string :=
  string_of_list_ascii
    (map lower_ascii (rev (drop_space (rev (drop_space (list_ascii_of_string s)))))).

(** ** Auxiliary notions used by the proofs *)

Definition rename_name (old_tag new_tag n : string) : string :=
  if String.eqb n old_tag then new_tag else n.

(** Existing entries keep their [first_seen] and expiration. *)
Definition keeps (ts ts' : list ObservableTag.t) : Prop :=
  forall m e, lookup m ts = Some e ->
    exists e', lookup m ts' = Some e'
               /\ ObservableTag.first_seen e' = ObservableTag.first_seen e
               /\ ObservableTag.expiration e' = ObservableTag.expiration e.

(** Entries of name [m] added during a call are seen first at [now]. *)
Definition new_since (now : Z) (m : string) (ts : list ObservableTag.t) : Prop :=
  forall e, lookup m ts = Some e -> ObservableTag.first_seen e = now.

(** What [resolve] reads of a catalog tag. *)
Definition shape (t : Tag.t) : string * list string := (Tag.name t, Tag.replaces t).

(** Items of a context ordered by strictly increasing key. *)
Definition key_lt (x y : string * string) : Prop := String.ltb (fst x) (fst y) = true.

Definition replaces_name (n : string) (t : Tag.t) : bool :=
  existsb (String.eqb n) (Tag.replaces t).

Definition count_named (n : string) (ts : list ObservableTag.t) : nat :=
  length (filter (fun e => String.eqb (ObservableTag.name e) n) ts).

Ltac str_cases a b :=
  let E := fresh "E" in
  destruct (String.eqb_spec a b) as [E|E]; [subst|].

(** * Properties *)

(** ** General lemmas on tag lists *)

Lemma lookup_name n ts e : lookup n ts = Some e -> ObservableTag.name e = n.
Proof.
  unfold lookup; intros H. apply find_some in H as [_ H].
  now apply String.eqb_eq.
Qed.

Lemma has_tag_name_lookup n ts :
  has_tag_name n ts = true <-> exists e, lookup n ts = Some e.
Proof.
  unfold has_tag_name, lookup; induction ts as [|e r IH]; simpl.
  - split; [discriminate | intros [? H]; discriminate].
  - destruct (String.eqb (ObservableTag.name e) n); simpl.
    + split; eauto.
    + exact IH.
Qed.

Lemma lookup_none_has n ts : lookup n ts = None <-> has_tag_name n ts = false.
Proof.
  destruct (lookup n ts) eqn:E.
  - split; [discriminate|]. intros H.
    assert (has_tag_name n ts = true) by (apply has_tag_name_lookup; eauto).
    congruence.
  - split; [|reflexivity]. intros _.
    destruct (has_tag_name n ts) eqn:F; [|reflexivity].
    apply has_tag_name_lookup in F as [e' F]; congruence.
Qed.

Lemma has_tag_name_In n ts :
  has_tag_name n ts = true <-> In n (map ObservableTag.name ts).
Proof.
  unfold has_tag_name; rewrite existsb_exists; split.
  - intros [e [Hin He]]. apply String.eqb_eq in He; subst.
    now apply in_map.
  - intros Hin. apply in_map_iff in Hin as [e [He Hin]].
    exists e; split; [assumption | now apply String.eqb_eq].
Qed.

Lemma lookup_pull_other m n ts :
  m <> n -> lookup m (pull n ts) = lookup m ts.
Proof.
  intros Hne; unfold lookup, pull; induction ts as [|e r IH]; simpl; [reflexivity|].
  destruct (String.eqb (ObservableTag.name e) n) eqn:En; simpl.
  - apply String.eqb_eq in En.
    destruct (String.eqb (ObservableTag.name e) m) eqn:Em.
    + apply String.eqb_eq in Em; congruence.
    + exact IH.
  - destruct (String.eqb (ObservableTag.name e) m); [reflexivity | exact IH].
Qed.

Lemma has_pull_self n ts : has_tag_name n (pull n ts) = false.
Proof.
  unfold has_tag_name, pull; induction ts as [|e r IH]; simpl; [reflexivity|].
  destruct (String.eqb (ObservableTag.name e) n) eqn:En; simpl; [exact IH|].
  now rewrite En.
Qed.

Lemma filter_all_true {A} (f : A -> bool) l :
  (forall x, f x = true) -> filter f l = l.
Proof.
  intros Hf; induction l as [|x r IH]; simpl; [reflexivity|].
  now rewrite Hf, IH.
Qed.

(** ** C10: [get_tags] filters on freshness by default *)

(** C10: [get_tags o] (with [fresh = True]) lists, in tag-list order, the
    names of exactly the fresh entries; [get_tags o False] lists the names
    of all entries; so a name is returned by default iff some stored entry
    of that name is fresh. *)
Theorem get_tags_fresh_default (o : Observable.t) :
  get_tags o true = map ObservableTag.name (filter ObservableTag.fresh (Observable.tags o))
  /\ get_tags o false = map ObservableTag.name (Observable.tags o)
  /\ (forall n, In n (get_tags o true) <->
        exists e, In e (Observable.tags o) /\ ObservableTag.fresh e = true
                  /\ ObservableTag.name e = n).
Proof.
  unfold get_tags.
  assert (Hf : filter (fun t => ObservableTag.fresh t || negb true) (Observable.tags o)
               = filter ObservableTag.fresh (Observable.tags o)).
  { apply filter_ext; intros e; now rewrite orb_false_r. }
  split; [now rewrite Hf|]. split.
  - f_equal. apply filter_all_true. intros e; apply orb_true_r.
  - intros n; rewrite Hf, in_map_iff. split.
    + intros [e [He Hin]]; apply filter_In in Hin as [Hin Hfr]; eauto.
    + intros [e [Hin [Hfr He]]]; exists e; split; [assumption|].
      now apply filter_In.
Qed.

(** ** C9: [guess_type] *)

(** C9 (code bug): on the empty string and on a whitespace-only string
    [guess_type] raises nothing and returns [None], whatever the class
    checks are. *)
Theorem guess_type_blank_returns_none (check_type : variant -> string -> bool) :
  guess_type check_type "" = Ret None /\ guess_type check_type " " = Ret None.
Proof. split; reflexivity. Qed.

(** ** C5: [add_context] without a [source] key *)

(** C5 (amended): a context without a [source] key makes [add_context]
    raise an [AssertionError] before any update, whatever [replace_source]
    is: the persisted observable (its tags and context) is unchanged. *)
Theorem add_context_missing_source (o : Observable.t) (ctx : Context)
  (replace_source : option string) :
  dict_lookup ctx "source" = None ->
  add_context o ctx replace_source = (o, Raise AssertionError).
Proof.
  unfold add_context, dict_lookup; intros H.
  destruct (existsb (fun kv => String.eqb (fst kv) "source") ctx) eqn:E;
    [|reflexivity].
  apply existsb_exists in E as [kv [Hin Hk]].
  destruct (find (fun kv => String.eqb (fst kv) "source") ctx) eqn:F; [discriminate|].
  eapply find_none in F; [|exact Hin]. congruence.
Qed.

Lemma add_context_missing_source_witness :
  dict_lookup [("ip", "1.2.3.4")] "source" = None
  /\ add_context (Observable.mk "1.2.3.4" [[("source", "feedA")]] [] None)
       [("ip", "1.2.3.4")] (Some "feedA")
     = (Observable.mk "1.2.3.4" [[("source", "feedA")]] [] None, Raise AssertionError).
Proof.
  split; [reflexivity|].
  apply (add_context_missing_source
           (Observable.mk "1.2.3.4" [[("source", "feedA")]] [] None)
           [("ip", "1.2.3.4")] (Some "feedA")).
  reflexivity.
Defined.

(** C5 counterexample: the error raised is an [AssertionError], not a
    [ValidationError "missing source"]. *)
Lemma add_context_not_validation_error :
  add_context (Observable.mk "1.2.3.4" [] [] None) [("ip", "1.2.3.4")] None
  <> (Observable.mk "1.2.3.4" [] [] None, Raise (ValidationError "missing source")).
Proof. vm_compute. discriminate. Qed.

(** ** C6: [expire_tags] *)

(** C6 (amended): [expire_tags] keeps every entry, in place, with its name,
    timestamps and expiration; it sets [fresh = false] exactly on the
    entries whose expiration is present and non-zero and with
    [now > last_seen + expiration], and never sets [fresh] to true. The
    other fields of the observable are unchanged. *)
Theorem expire_tags_flips_only_expired (o : Observable.t) (now : Z) :
  Observable.value (expire_tags o now) = Observable.value o
  /\ Observable.context (expire_tags o now) = Observable.context o
  /\ Observable.last_tagged (expire_tags o now) = Observable.last_tagged o
  /\ Observable.tags (expire_tags o now)
     = map (fun e =>
              ObservableTag.mk (ObservableTag.name e) (ObservableTag.first_seen e)
                (ObservableTag.last_seen e) (ObservableTag.expiration e)
                (ObservableTag.fresh e
                 && negb (match ObservableTag.expiration e with
                          | Some d => negb (d =? 0) && (now >? ObservableTag.last_seen e + d)
                          | None => false
                          end)))
           (Observable.tags o).
Proof.
  repeat split; unfold expire_tags; simpl.
  apply map_ext; intros [n fs ls ex fr]; unfold expire_tag; simpl.
  destruct ex as [d|]; simpl; [|now rewrite andb_true_r].
  rewrite Z.gtb_ltb.
  destruct (negb (d =? 0) && (ls + d <? now)); simpl;
    [now rewrite andb_false_r | now rewrite andb_true_r].
Qed.

(** C6 counterexample: an entry with a zero expiration ([timedelta(0)],
    falsy in Python) stays fresh although [now > last_seen + expiration]. *)
Lemma expire_tags_zero_expiration_stays_fresh :
  let e := ObservableTag.mk "x" 0 0 (Some 0) true in
  ObservableTag.expiration e <> None
  /\ 10 > ObservableTag.last_seen e + 0
  /\ Observable.tags (expire_tags (Observable.mk "1.2.3.4" [] [e] None) 10) = [e].
Proof. vm_compute. split; [discriminate|]. split; reflexivity. Qed.

(** ** C3: [find_tags] *)

(** C3 (code bug): with tags [a] and [b] applied, both producing [c],
    [find_tags] counts [c] once: the tally reads [new_tags.get(tag, 0)]
    under the producing tag instead of the produced one. *)
Theorem find_tags_counts_once :
  let cat := [Tag.mk "a" [] ["c"] None 1; Tag.mk "b" [] ["c"] None 1;
              Tag.mk "c" [] [] None 0] in
  let o := Observable.mk "1.2.3.4" []
             [ObservableTag.mk "a" 0 0 None true; ObservableTag.mk "b" 0 0 None true]
             None in
  find_tags cat o = Ret [("c", 1)]
  /\ length (filter (fun t => existsb (String.eqb "c") (Tag.produces t)) cat) = 2%nat.
Proof. split; reflexivity. Qed.

(** ** C2: the expiration of new entries *)

(** C2 (code bug): tagging [a] then [b] in one call without an expiration
    gives the new [b] entry the default expiration of [a] (3600), not its
    own (7200): the first name overwrites the [expiration] argument. *)
Theorem tag_expiration_carried_over :
  let cat := [Tag.mk "a" [] [] (Some 3600) 0; Tag.mk "b" [] [] (Some 7200) 0] in
  match tag clean_spec cat (Observable.mk "1.2.3.4" [] [] None) ["a"; "b"] false None 10 with
  | Ret (o', _) => lookup "b" (Observable.tags o') = Some (ObservableTag.mk "b" 10 10 (Some 3600) true)
  | Raise _ => False
  end.
Proof. vm_compute. reflexivity. Qed.

(** ** C7: [change_tag] *)

Lemma map_rename_notin old_tag new_tag l :
  ~ In old_tag l -> map (rename_name old_tag new_tag) l = l.
Proof.
  induction l as [|n r IH]; simpl; intros H; [reflexivity|].
  unfold rename_name at 1.
  destruct (String.eqb n old_tag) eqn:E.
  - apply String.eqb_eq in E; subst; tauto.
  - rewrite IH; tauto.
Qed.

Lemma names_rename_first old_tag new_tag ts :
  NoDup (map ObservableTag.name ts) ->
  map ObservableTag.name (rename_first old_tag new_tag ts)
  = map (rename_name old_tag new_tag) (map ObservableTag.name ts).
Proof.
  induction ts as [|e r IH]; simpl; intros Hnd; [reflexivity|].
  inversion Hnd as [|? ? Hnin Hnd']; subst.
  unfold rename_name at 1.
  destruct (String.eqb (ObservableTag.name e) old_tag) eqn:E; simpl.
  - apply String.eqb_eq in E; subst. now rewrite map_rename_notin.
  - f_equal. now apply IH.
Qed.

Lemma lookup_rename_first old_tag new_tag ts e :
  has_tag_name new_tag ts = false -> lookup old_tag ts = Some e ->
  lookup new_tag (rename_first old_tag new_tag ts)
  = Some (ObservableTag.mk new_tag (ObservableTag.first_seen e) (ObservableTag.last_seen e)
            (ObservableTag.expiration e) (ObservableTag.fresh e)).
Proof.
  unfold lookup, has_tag_name; induction ts as [|e0 r IH]; simpl; [discriminate|].
  intros Hnew Hold. apply orb_false_iff in Hnew as [Hn0 Hnr].
  destruct (String.eqb (ObservableTag.name e0) old_tag) eqn:E; simpl.
  - injection Hold as <-. now rewrite String.eqb_refl.
  - rewrite Hn0. now apply IH.
Qed.

Lemma names_touch_first n now ts :
  map ObservableTag.name (touch_first n now ts) = map ObservableTag.name ts.
Proof.
  induction ts as [|e r IH]; simpl; [reflexivity|].
  destruct (String.eqb (ObservableTag.name e) n); simpl; congruence.
Qed.

Lemma lookup_touch_first n now ts :
  lookup n (touch_first n now ts)
  = option_map (fun e => ObservableTag.mk (ObservableTag.name e) (ObservableTag.first_seen e)
                           now (ObservableTag.expiration e) (ObservableTag.fresh e))
      (lookup n ts).
Proof.
  unfold lookup; induction ts as [|e r IH]; simpl; [reflexivity|].
  destruct (String.eqb (ObservableTag.name e) n) eqn:E; simpl; rewrite ?E; auto.
Qed.

Lemma has_tag_name_names n ts ts' :
  map ObservableTag.name ts = map ObservableTag.name ts' ->
  has_tag_name n ts = has_tag_name n ts'.
Proof.
  intros H.
  destruct (has_tag_name n ts) eqn:E1, (has_tag_name n ts') eqn:E2; auto.
  - apply has_tag_name_In in E1. rewrite H in E1.
    apply has_tag_name_In in E1; congruence.
  - apply has_tag_name_In in E2. rewrite <- H in E2.
    apply has_tag_name_In in E2; congruence.
Qed.

(** C7: on an observable whose tag names are unique (the data-model
    invariant), [change_tag o old new] with [old <> new] never leaves both
    names present. When [old] is present and [new] is not, the [old] entry
    is renamed in place (same position, [first_seen], [last_seen],
    expiration and freshness). When both are present, the [old] entry is
    deleted and the [new] entry's [last_seen] becomes [now]. *)
Theorem change_tag_never_both (o : Observable.t) (old_tag new_tag : string) (now : Z) :
  NoDup (map ObservableTag.name (Observable.tags o)) ->
  old_tag <> new_tag ->
  let ts := Observable.tags o in
  let ts' := Observable.tags (change_tag o old_tag new_tag now) in
  negb (has_tag_name old_tag ts' && has_tag_name new_tag ts') = true
  /\ (forall e, lookup old_tag ts = Some e -> has_tag_name new_tag ts = false ->
        map ObservableTag.name ts'
        = map (rename_name old_tag new_tag) (map ObservableTag.name ts)
        /\ lookup new_tag ts'
           = Some (ObservableTag.mk new_tag (ObservableTag.first_seen e)
                     (ObservableTag.last_seen e) (ObservableTag.expiration e)
                     (ObservableTag.fresh e)))
  /\ (forall e, has_tag_name old_tag ts = true -> lookup new_tag ts = Some e ->
        has_tag_name old_tag ts' = false
        /\ lookup new_tag ts'
           = Some (ObservableTag.mk new_tag (ObservableTag.first_seen e) now
                     (ObservableTag.expiration e) (ObservableTag.fresh e))).
Proof.
  intros Hnd Hne ts ts'. subst ts ts'.
  set (ts := Observable.tags o) in *.
  (* the fall-back branch: pull [old_tag], touch [new_tag] *)
  assert (Hfb : has_tag_name old_tag (touch_first new_tag now (pull old_tag ts)) = false).
  { rewrite (has_tag_name_names _ _ (pull old_tag ts)) by apply names_touch_first.
    apply has_pull_self. }
  assert (Hfb_new : forall e, lookup new_tag ts = Some e ->
            lookup new_tag (touch_first new_tag now (pull old_tag ts))
            = Some (ObservableTag.mk new_tag (ObservableTag.first_seen e) now
                      (ObservableTag.expiration e) (ObservableTag.fresh e))).
  { intros e He. rewrite lookup_touch_first, lookup_pull_other by congruence.
    rewrite He; simpl. now rewrite (lookup_name _ _ _ He). }
  unfold change_tag; fold ts.
  destruct (has_tag_name old_tag ts) eqn:Hold, (has_tag_name new_tag ts) eqn:Hnew;
    simpl; refine (conj _ (conj _ _)).
  - now rewrite Hfb.
  - intros e _ H; discriminate.
  - intros e _ He; split; [exact Hfb | now apply Hfb_new].
  - assert (Hnames := names_rename_first old_tag new_tag ts Hnd).
    assert (Hold' : has_tag_name old_tag (rename_first old_tag new_tag ts) = false).
    { destruct (has_tag_name old_tag (rename_first old_tag new_tag ts)) eqn:E; [|reflexivity].
      apply has_tag_name_In in E. rewrite Hnames, in_map_iff in E.
      destruct E as [n [Hn _]]. unfold rename_name in Hn.
      destruct (String.eqb n old_tag) eqn:En; [congruence|].
      subst n; now rewrite String.eqb_refl in En. }
    now rewrite Hold'.
  - intros e He _. split; [now apply names_rename_first|].
    now apply lookup_rename_first.
  - intros e _ He. apply lookup_none_has in Hnew; congruence.
  - now rewrite Hfb.
  - intros e He; apply lookup_none_has in Hold; congruence.
  - intros e H; discriminate.
  - now rewrite Hfb.
  - intros e He; apply lookup_none_has in Hold; congruence.
  - intros e H; discriminate.
Qed.

Lemma change_tag_never_both_witness :
  let o := Observable.mk "1.2.3.4" []
             [ObservableTag.mk "old" 1 2 None true; ObservableTag.mk "new" 3 4 None true] None in
  NoDup (map ObservableTag.name (Observable.tags o))
  /\ "old" <> "new"
  /\ has_tag_name "old" (Observable.tags (change_tag o "old" "new" 9)) = false.
Proof.
  intros o.
  assert (Hnd : NoDup (map ObservableTag.name (Observable.tags o))).
  { simpl. constructor; [simpl; intros [H|H]; [discriminate|exact H]|].
    constructor; [simpl; tauto | constructor]. }
  assert (Hne : "old" <> "new") by discriminate.
  split; [exact Hnd|]. split; [exact Hne|].
  destruct (change_tag_never_both o "old" "new" 9 Hnd Hne) as [_ [_ H]].
  apply (H (ObservableTag.mk "new" 3 4 None true)); reflexivity.
Defined.

(** ** The upsert of one tag ([apply_one]) and of an application set *)

Lemma lookup_cons m e r :
  lookup m (e :: r) = if String.eqb (ObservableTag.name e) m then Some e else lookup m r.
Proof. reflexivity. Qed.

Lemma lookup_refresh n now ts ts' m :
  refresh n now ts = Some ts' ->
  lookup m ts'
  = if String.eqb m n
    then option_map (fun e => ObservableTag.mk (ObservableTag.name e) (ObservableTag.first_seen e)
                                now (ObservableTag.expiration e) true) (lookup m ts)
    else lookup m ts.
Proof.
  revert ts'; induction ts as [|e r IH]; simpl; intros ts' H; [discriminate|].
  rewrite lookup_cons.
  destruct (String.eqb (ObservableTag.name e) n) eqn:En.
  - apply String.eqb_eq in En. injection H as <-. rewrite lookup_cons; simpl.
    str_cases m n.
    + now rewrite String.eqb_refl.
    + destruct (String.eqb_spec (ObservableTag.name e) m); [congruence|].
      reflexivity.
  - destruct (refresh n now r) as [r'|] eqn:Hr; simpl in H; [|discriminate].
    injection H as <-. rewrite lookup_cons, (IH r' eq_refl).
    str_cases m n.
    + now rewrite En.
    + reflexivity.
Qed.

Lemma refresh_none n now ts : refresh n now ts = None -> lookup n ts = None.
Proof.
  induction ts as [|e r IH]; simpl; [reflexivity|].
  rewrite lookup_cons.
  destruct (String.eqb (ObservableTag.name e) n); [discriminate|].
  destruct (refresh n now r); simpl; [discriminate|]. auto.
Qed.

Lemma names_refresh n now ts ts' :
  refresh n now ts = Some ts' -> map ObservableTag.name ts' = map ObservableTag.name ts.
Proof.
  revert ts'; induction ts as [|e r IH]; simpl; intros ts' H; [discriminate|].
  destruct (String.eqb (ObservableTag.name e) n).
  - now injection H as <-.
  - destruct (refresh n now r) as [r'|]; simpl in H; [|discriminate].
    injection H as <-. simpl. now rewrite (IH r' eq_refl).
Qed.

Lemma lookup_app m l1 l2 :
  lookup m (l1 ++ l2) = match lookup m l1 with Some e => Some e | None => lookup m l2 end.
Proof.
  induction l1 as [|e r IH]; simpl; [reflexivity|].
  rewrite !lookup_cons. destruct (String.eqb (ObservableTag.name e) m); auto.
Qed.

(** The entries of the tag list after one upsert of [n]. *)
Lemma lookup_apply_one expiration now ts cat n m :
  lookup m (fst (apply_one expiration now (ts, cat) n))
  = if String.eqb m n
    then Some (match lookup n ts with
               | Some e => ObservableTag.mk n (ObservableTag.first_seen e) now
                             (ObservableTag.expiration e) true
               | None => new_observable_tag n expiration now
               end)
    else lookup m ts.
Proof.
  unfold apply_one.
  destruct (refresh n now ts) as [ts'|] eqn:Hr; simpl.
  - rewrite (lookup_refresh _ _ _ _ m Hr).
    str_cases m n; [|reflexivity].
    destruct (lookup n ts) as [e|] eqn:Hl; simpl.
    + now rewrite (lookup_name _ _ _ Hl).
    + exfalso. unfold lookup in Hl.
      (* a successful refresh found an entry *)
      assert (Hex : exists e, lookup n ts = Some e).
      { clear Hl. revert ts' Hr; induction ts as [|e r IH]; simpl; intros ts' Hr;
          [discriminate|].
        rewrite lookup_cons.
        destruct (String.eqb (ObservableTag.name e) n); [eauto|].
        destruct (refresh n now r) as [r'|]; simpl in Hr; [|discriminate].
        eapply IH; reflexivity. }
      destruct Hex as [e He]. unfold lookup in He. congruence.
  - apply refresh_none in Hr.
    rewrite lookup_app. simpl.
    str_cases m n.
    + rewrite Hr, lookup_cons; simpl. now rewrite String.eqb_refl.
    + destruct (lookup m ts); [reflexivity|].
      rewrite lookup_cons; simpl. destruct (String.eqb_spec n m); [congruence | reflexivity].
Qed.

Lemma nodup_apply_one expiration now ts cat n :
  NoDup (map ObservableTag.name ts) ->
  NoDup (map ObservableTag.name (fst (apply_one expiration now (ts, cat) n))).
Proof.
  unfold apply_one; intros Hnd.
  destruct (refresh n now ts) as [ts'|] eqn:Hr; simpl.
  - now rewrite (names_refresh _ _ _ _ Hr).
  - apply refresh_none, lookup_none_has in Hr.
    rewrite map_app; simpl. apply NoDup_app; [exact Hnd | repeat constructor; simpl; tauto|].
    intros x Hx [<-|[]]. apply has_tag_name_In in Hx. congruence.
Qed.

Lemma apply_all_app expiration now l1 l2 st :
  apply_all expiration now (l1 ++ l2) st
  = apply_all expiration now l2 (apply_all expiration now l1 st).
Proof. revert st; induction l1 as [|n r IH]; simpl; intros st; auto. Qed.

Lemma keeps_refl ts : keeps ts ts.
Proof. intros m e H; exists e; auto. Qed.

Lemma keeps_trans a b c : keeps a b -> keeps b c -> keeps a c.
Proof.
  intros Hab Hbc m e H.
  destruct (Hab m e H) as [e1 [H1 [F1 X1]]].
  destruct (Hbc m e1 H1) as [e2 [H2 [F2 X2]]].
  exists e2; split; [exact H2 | split; congruence].
Qed.

Lemma keeps_apply_one expiration now ts cat n :
  keeps ts (fst (apply_one expiration now (ts, cat) n)).
Proof.
  intros m e H. rewrite lookup_apply_one.
  str_cases m n.
  - rewrite H. eexists; split; [reflexivity | simpl; auto].
  - exists e; auto.
Qed.

Lemma keeps_apply_all expiration now l st :
  keeps (fst st) (fst (apply_all expiration now l st)).
Proof.
  revert st; induction l as [|n r IH]; simpl; intros [ts cat]; [apply keeps_refl|].
  eapply keeps_trans; [apply (keeps_apply_one expiration now ts cat n)|].
  destruct (apply_one expiration now (ts, cat) n) as [ts1 cat1] eqn:E.
  apply IH.
Qed.

Lemma nodup_apply_all expiration now l st :
  NoDup (map ObservableTag.name (fst st)) ->
  NoDup (map ObservableTag.name (fst (apply_all expiration now l st))).
Proof.
  revert st; induction l as [|n r IH]; simpl; intros [ts cat] Hnd; [exact Hnd|].
  apply IH. now apply nodup_apply_one.
Qed.

(** After an application set has been applied, a name is present iff it
    was present before or belongs to the set. *)
Lemma present_apply_all expiration now l st m :
  lookup m (fst (apply_all expiration now l st)) <> None
  <-> lookup m (fst st) <> None \/ In m l.
Proof.
  revert st; induction l as [|n r IH]; simpl; intros [ts cat].
  - tauto.
  - rewrite IH. destruct (apply_one expiration now (ts, cat) n) as [ts1 cat1] eqn:E.
    simpl. replace ts1 with (fst (apply_one expiration now (ts, cat) n)) by now rewrite E.
    rewrite lookup_apply_one.
    str_cases m n.
    + split; [tauto | intros _; left; discriminate].
    + split; [intros [H|H]; tauto | intros [H|[H|H]]; try tauto; congruence].
Qed.

(** The last upserted name is fresh and seen [now]. *)
Lemma lookup_apply_all_last expiration now l n st :
  lookup n (fst (apply_all expiration now (l ++ [n]) st))
  = Some (match lookup n (fst (apply_all expiration now l st)) with
          | Some e => ObservableTag.mk n (ObservableTag.first_seen e) now
                        (ObservableTag.expiration e) true
          | None => new_observable_tag n expiration now
          end).
Proof.
  rewrite apply_all_app. simpl.
  destruct (apply_all expiration now l st) as [ts cat].
  rewrite lookup_apply_one, String.eqb_refl. reflexivity.
Qed.

Lemma new_since_apply_all expiration now l st m :
  new_since now m (fst st) -> new_since now m (fst (apply_all expiration now l st)).
Proof.
  revert st; induction l as [|n r IH]; simpl; intros [ts cat] H; [exact H|].
  apply IH. intros e He.
  rewrite lookup_apply_one in He.
  destruct (String.eqb_spec m n) as [->|Hne].
  - destruct (lookup n ts) as [e0|] eqn:H0; injection He as <-; simpl; auto.
  - now apply H.
Qed.

(** ** Alias resolution is stable across calls *)

Lemma shapes_inc_count n cat : map shape (inc_count n cat) = map shape cat.
Proof.
  unfold inc_count; rewrite map_map. apply map_ext; intros t.
  destruct (String.eqb (Tag.name t) n); reflexivity.
Qed.

Lemma shapes_apply_all expiration now l st :
  map shape (snd (apply_all expiration now l st)) = map shape (snd st).
Proof.
  revert st; induction l as [|n r IH]; simpl; intros [ts cat]; [reflexivity|].
  rewrite IH. unfold apply_one.
  destruct (refresh n now ts); simpl; [reflexivity | apply shapes_inc_count].
Qed.

Lemma filter_shapes n c c' :
  map shape c = map shape c' ->
  map shape (filter (replaces_name n) c) = map shape (filter (replaces_name n) c').
Proof.
  revert c'; induction c as [|t r IH]; intros [|t' r'] H; simpl in H;
    try discriminate; [reflexivity|].
  injection H as Hn Hrp Hr.
  assert (Hrep : replaces_name n t = replaces_name n t').
  { unfold replaces_name. now rewrite Hrp. }
  assert (Hst : shape t = shape t') by (unfold shape; congruence).
  simpl. rewrite Hrep. destruct (replaces_name n t'); simpl; rewrite (IH r' Hr);
    congruence.
Qed.

Lemma get_or_create_name cat n : Tag.name (fst (get_or_create cat n)) = n.
Proof.
  unfold get_or_create.
  destruct (find (fun t => String.eqb (Tag.name t) n) cat) eqn:F; simpl; [|reflexivity].
  apply find_some in F as [_ F]. now apply String.eqb_eq.
Qed.

Lemma get_or_create_cat cat n :
  snd (get_or_create cat n) = cat \/ snd (get_or_create cat n) = cat ++ [new_tag n].
Proof.
  unfold get_or_create; destruct (find _ cat); simpl; auto.
Qed.

(** A name resolved once resolves, in any later catalog with the same
    names and aliases, to a tag of the same name. *)
Lemma resolve_stable cat n t c c2 :
  resolve cat n = Ret (t, c) ->
  map shape c2 = map shape c ->
  exists t' c3, resolve c2 n = Ret (t', c3) /\ Tag.name t' = Tag.name t.
Proof.
  unfold resolve. fold (replaces_name n).
  intros H Hs.
  assert (Hf := filter_shapes n c2 c Hs).
  destruct (filter (replaces_name n) cat) as [|t0 [|t1 r]] eqn:F.
  - injection H as H.
    assert (Ht : fst (get_or_create cat n) = t) by now rewrite H.
    assert (Hc : snd (get_or_create cat n) = c) by now rewrite H.
    assert (Hname : Tag.name t = n) by (rewrite <- Ht; apply get_or_create_name).
    assert (Hfc : filter (replaces_name n) c = []).
    { rewrite <- Hc. destruct (get_or_create_cat cat n) as [E|E]; rewrite E; [exact F|].
      rewrite filter_app, F. reflexivity. }
    rewrite Hfc in Hf. destruct (filter (replaces_name n) c2); [|discriminate].
    exists (fst (get_or_create c2 n)), (snd (get_or_create c2 n)).
    split; [now destruct (get_or_create c2 n)|]. now rewrite get_or_create_name.
  - injection H as <- <-. rewrite F in Hf.
    destruct (filter (replaces_name n) c2) as [|t' [|? ?]]; try discriminate.
    simpl in Hf. injection Hf as Hf.
    do 2 eexists; split; [reflexivity|]. unfold shape in Hf. congruence.
  - discriminate.
Qed.

Section TagCalls.

Variable clean : string -> string.

(** One call of [tag] on a single non-blank name. *)
Lemma tag_one_name cat o x expiration now t c :
  is_blank x = false -> resolve cat (clean x) = Ret (t, c) ->
  let expiration' := if truthy expiration then expiration else Tag.default_expiration t in
  tag clean cat o [x] false expiration now
  = Ret (Observable.mk (Observable.value o) (Observable.context o)
           (fst (apply_all expiration' now (extra_tags t) (Observable.tags o, c)))
           (Some now),
         snd (apply_all expiration' now (extra_tags t) (Observable.tags o, c))).
Proof.
  intros Hb Hr expiration'. unfold tag; simpl. rewrite Hb, Hr.
  fold expiration'.
  destruct (apply_all expiration' now (extra_tags t) (Observable.tags o, c)); reflexivity.
Qed.

End TagCalls.

(** ** C1: tagging twice refreshes the single entry *)

Lemma count_named_absent n ts :
  ~ In n (map ObservableTag.name ts) -> count_named n ts = 0%nat.
Proof.
  unfold count_named; induction ts as [|e r IH]; simpl; intros H; [reflexivity|].
  destruct (String.eqb_spec (ObservableTag.name e) n); [tauto|].
  apply IH; tauto.
Qed.

Lemma count_named_unique n ts e :
  NoDup (map ObservableTag.name ts) -> lookup n ts = Some e -> count_named n ts = 1%nat.
Proof.
  induction ts as [|e0 r IH]; intros Hnd H; [discriminate|].
  inversion Hnd as [|? ? Hnin Hnd']; subst.
  rewrite lookup_cons in H. unfold count_named; simpl.
  destruct (String.eqb_spec (ObservableTag.name e0) n) as [<-|Hne]; simpl.
  - pose proof (count_named_absent _ _ Hnin) as H0. unfold count_named in H0.
    now rewrite H0.
  - now apply IH.
Qed.

(** C1 (amended): let [x] be a non-blank name whose canonical tag (after
    [Tag.clean] and alias resolution) is [t], on an observable whose tag
    names are unique. Two successive calls [tag([x])] succeed; after each
    there is exactly one entry named [t.name] and the names stay unique;
    the second call refreshes the entry left by the first (same
    [first_seen] and expiration) with [last_seen] the second call's time
    and [fresh = true]. *)
Theorem tag_twice_single_entry (clean : string -> string) (cat : Catalog)
  (o : Observable.t) (x : string) (exp1 exp2 : option Z) (now1 now2 : Z)
  (t : Tag.t) (c : Catalog) :
  NoDup (map ObservableTag.name (Observable.tags o)) ->
  is_blank x = false ->
  resolve cat (clean x) = Ret (t, c) ->
  exists o1 cat1 o2 cat2,
    tag clean cat o [x] false exp1 now1 = Ret (o1, cat1)
    /\ tag clean cat1 o1 [x] false exp2 now2 = Ret (o2, cat2)
    /\ count_named (Tag.name t) (Observable.tags o1) = 1%nat
    /\ count_named (Tag.name t) (Observable.tags o2) = 1%nat
    /\ NoDup (map ObservableTag.name (Observable.tags o2))
    /\ exists e1, lookup (Tag.name t) (Observable.tags o1) = Some e1
         /\ lookup (Tag.name t) (Observable.tags o2)
            = Some (ObservableTag.mk (Tag.name t) (ObservableTag.first_seen e1) now2
                      (ObservableTag.expiration e1) true).
Proof.
  intros Hnd Hb Hr.
  set (x1 := if truthy exp1 then exp1 else Tag.default_expiration t).
  set (st1 := apply_all x1 now1 (extra_tags t) (Observable.tags o, c)).
  set (o1 := Observable.mk (Observable.value o) (Observable.context o) (fst st1) (Some now1)).
  assert (H1 : tag clean cat o [x] false exp1 now1 = Ret (o1, snd st1))
    by exact (tag_one_name clean cat o x exp1 now1 t c Hb Hr).
  destruct (resolve_stable cat (clean x) t c (snd st1) Hr
              (shapes_apply_all x1 now1 (extra_tags t) (Observable.tags o, c)))
    as [t' [c3 [Hr' Hname]]].
  set (x2 := if truthy exp2 then exp2 else Tag.default_expiration t').
  set (st2 := apply_all x2 now2 (extra_tags t') (fst st1, c3)).
  set (o2 := Observable.mk (Observable.value o1) (Observable.context o1) (fst st2) (Some now2)).
  assert (H2 : tag clean (snd st1) o1 [x] false exp2 now2 = Ret (o2, snd st2))
    by exact (tag_one_name clean (snd st1) o1 x exp2 now2 t' c3 Hb Hr').
  (* after the first call *)
  assert (Hnd1 : NoDup (map ObservableTag.name (fst st1))) by (apply nodup_apply_all; exact Hnd).
  assert (Hl1 : exists e1, lookup (Tag.name t) (fst st1) = Some e1).
  { unfold st1, extra_tags. rewrite lookup_apply_all_last. eauto. }
  destruct Hl1 as [e1 Hl1].
  (* after the second call *)
  assert (Hnd2 : NoDup (map ObservableTag.name (fst st2))) by (apply nodup_apply_all; exact Hnd1).
  assert (Hl2 : lookup (Tag.name t) (fst st2)
                = Some (ObservableTag.mk (Tag.name t) (ObservableTag.first_seen e1) now2
                          (ObservableTag.expiration e1) true)).
  { unfold st2, extra_tags. rewrite <- Hname, lookup_apply_all_last. rewrite Hname.
    destruct (keeps_apply_all x2 now2 (Tag.produces t') (fst st1, c3) (Tag.name t) e1 Hl1)
      as [e' [He' [Hf Hx]]].
    rewrite He', Hf, Hx. reflexivity. }
  exists o1, (snd st1), o2, (snd st2).
  split; [exact H1|]. split; [exact H2|].
  split; [exact (count_named_unique _ _ _ Hnd1 Hl1)|].
  split; [exact (count_named_unique _ _ _ Hnd2 Hl2)|].
  split; [exact Hnd2|].
  exists e1; split; [exact Hl1 | exact Hl2].
Qed.

Lemma tag_twice_single_entry_witness :
  NoDup (map ObservableTag.name (Observable.tags (Observable.mk "1.2.3.4" [] [] None)))
  /\ is_blank "x" = false
  /\ resolve [] (clean_spec "x") = Ret (new_tag "x", [new_tag "x"])
  /\ exists o1 cat1 o2 cat2,
    tag clean_spec [] (Observable.mk "1.2.3.4" [] [] None) ["x"] false None 1 = Ret (o1, cat1)
    /\ tag clean_spec cat1 o1 ["x"] false None 2 = Ret (o2, cat2)
    /\ count_named "x" (Observable.tags o2) = 1%nat.
Proof.
  assert (Hnd : NoDup (map ObservableTag.name (Observable.tags (Observable.mk "1.2.3.4" [] [] None))))
    by constructor.
  assert (Hb : is_blank "x" = false) by reflexivity.
  assert (Hr : resolve [] (clean_spec "x") = Ret (new_tag "x", [new_tag "x"])) by reflexivity.
  split; [exact Hnd|]. split; [exact Hb|]. split; [exact Hr|].
  destruct (tag_twice_single_entry clean_spec [] (Observable.mk "1.2.3.4" [] [] None) "x"
              None None 1 2 (new_tag "x") [new_tag "x"] Hnd Hb Hr)
    as [o1 [cat1 [o2 [cat2 [H1 [H2 [_ [Hc _]]]]]]]].
  exists o1, cat1, o2, cat2. split; [exact H1|]. split; [exact H2|]. exact Hc.
Defined.

(** C1 counterexample: when [x] is an alias ("legacy", replaced by tag
    "b"), two calls leave no entry named [x] at all, one named "b". *)
Lemma tag_twice_alias_no_entry_named_x :
  let cat := [Tag.mk "b" ["legacy"] [] None 0] in
  match tag clean_spec cat (Observable.mk "1.2.3.4" [] [] None) ["legacy"] false None 1 with
  | Ret (o1, cat1) =>
    match tag clean_spec cat1 o1 ["legacy"] false None 2 with
    | Ret (o2, _) => count_named "legacy" (Observable.tags o2) = 0%nat
                     /\ count_named "b" (Observable.tags o2) = 1%nat
    | Raise _ => False
    end
  | Raise _ => False
  end.
Proof. vm_compute. split; reflexivity. Qed.

(** ** C8: one level of derived tags *)

Lemma filter_none_true {A} (f : A -> bool) l :
  (forall x, In x l -> f x = false) -> filter f l = [].
Proof.
  induction l as [|x r IH]; simpl; intros H; [reflexivity|].
  rewrite H by auto. apply IH; auto.
Qed.

Lemma resolve_canonical cat a tA :
  (forall t, In t cat -> replaces_name a t = false) ->
  get_by_name cat a = Ret tA ->
  resolve cat a = Ret (tA, cat) /\ Tag.name tA = a.
Proof.
  intros Hrep Hget. unfold get_by_name in Hget.
  destruct (find (fun t => String.eqb (Tag.name t) a) cat) as [t|] eqn:F;
    [|discriminate].
  injection Hget as <-.
  unfold resolve. fold (replaces_name a). rewrite (filter_none_true _ _ Hrep).
  unfold get_or_create. rewrite F. split; [reflexivity|].
  apply find_some in F as [_ F]. now apply String.eqb_eq.
Qed.

(** C8: let [a], [b], [c] be distinct names with no aliases for [a],
    catalog tags [A] (named [a], [A.produces = [b]]) and [B] (named [b],
    [B.produces = [c]]), and [a] already normalised. Then [tag([a])]
    terminates with both [a] and [b] present and [c] present only if it
    was before; in general the names present afterwards are those present
    before plus exactly the application set [A.produces ++ [a]], with no
    closure over the catalog's derivation graph (cycles included). *)
Theorem tag_produces_one_level (clean : string -> string) (cat : Catalog)
  (o : Observable.t) (a b c : string) (tA tB : Tag.t) (expiration : option Z) (now : Z) :
  clean a = a -> is_blank a = false ->
  (forall t, In t cat -> replaces_name a t = false) ->
  get_by_name cat a = Ret tA -> Tag.produces tA = [b] ->
  get_by_name cat b = Ret tB -> Tag.produces tB = [c] ->
  a <> b -> a <> c -> b <> c ->
  exists o' cat',
    tag clean cat o [a] false expiration now = Ret (o', cat')
    /\ lookup a (Observable.tags o') <> None
    /\ lookup b (Observable.tags o') <> None
    /\ (lookup c (Observable.tags o') <> None <-> lookup c (Observable.tags o) <> None)
    /\ (forall m, lookup m (Observable.tags o') <> None
                  <-> lookup m (Observable.tags o) <> None \/ In m (Tag.produces tA ++ [a])).
Proof.
  intros Hclean Hb Hrep HA HpA _ _ Hab Hac Hbc.
  destruct (resolve_canonical cat a tA Hrep HA) as [Hr Hname].
  rewrite <- Hclean in Hr.
  pose proof (tag_one_name clean cat o a expiration now tA cat Hb Hr) as Ht.
  cbv zeta in Ht.
  eexists; eexists; split; [exact Ht|]. simpl.
  assert (Hall : forall m,
            lookup m (fst (apply_all (if truthy expiration then expiration
                                      else Tag.default_expiration tA) now
                             (extra_tags tA) (Observable.tags o, cat))) <> None
            <-> lookup m (Observable.tags o) <> None \/ In m (Tag.produces tA ++ [a])).
  { intros m. rewrite present_apply_all. unfold extra_tags. rewrite Hname. reflexivity. }
  split; [apply Hall; right; apply in_or_app; simpl; auto|].
  split; [apply Hall; right; rewrite HpA; simpl; auto|].
  split; [|exact Hall].
  rewrite Hall, HpA. simpl. split; [|auto].
  intros [H|[H|[H|[]]]]; [exact H | congruence | congruence].
Qed.

Lemma tag_produces_one_level_witness :
  let cat := [Tag.mk "a" [] ["b"] None 0; Tag.mk "b" [] ["c"] None 0;
              Tag.mk "c" [] ["a"] None 0] in
  exists o' cat',
    tag clean_spec cat (Observable.mk "1.2.3.4" [] [] None) ["a"] false None 5 = Ret (o', cat')
    /\ lookup "c" (Observable.tags o') = None.
Proof.
  intros cat.
  assert (Hrep : forall t, In t cat -> replaces_name "a" t = false).
  { intros t Ht; simpl in Ht. destruct Ht as [<-|[<-|[<-|[]]]]; reflexivity. }
  destruct (tag_produces_one_level clean_spec cat (Observable.mk "1.2.3.4" [] [] None)
              "a" "b" "c" (Tag.mk "a" [] ["b"] None 0) (Tag.mk "b" [] ["c"] None 0) None 5
              eq_refl eq_refl Hrep eq_refl eq_refl eq_refl eq_refl
              ltac:(discriminate) ltac:(discriminate) ltac:(discriminate))
    as [o' [cat' [Ht [_ [_ [Hc _]]]]]].
  exists o', cat'. split; [exact Ht|].
  destruct (lookup "c" (Observable.tags o')) eqn:E; [|reflexivity].
  exfalso. apply (proj1 Hc); [discriminate | reflexivity].
Defined.

(** ** C4: the strict mode *)

Lemma lookup_pull m n ts :
  lookup m (pull n ts) = if String.eqb m n then None else lookup m ts.
Proof.
  destruct (String.eqb_spec m n) as [->|Hne].
  - apply lookup_none_has, has_pull_self.
  - now apply lookup_pull_other.
Qed.

Lemma lookup_fold_pull m l ts :
  lookup m (fold_left (fun acc n => pull n acc) l ts)
  = if existsb (String.eqb m) l then None else lookup m ts.
Proof.
  revert ts; induction l as [|n r IH]; simpl; intros ts; [reflexivity|].
  rewrite IH, lookup_pull.
  destruct (String.eqb m n), (existsb (String.eqb m) r); reflexivity.
Qed.

Lemma existsb_eqb_In m l : existsb (String.eqb m) l = true <-> In m l.
Proof.
  rewrite existsb_exists. split.
  - intros [x [Hx E]]. apply String.eqb_eq in E; now subst.
  - intros H; exists m; split; [exact H | apply String.eqb_refl].
Qed.

(** Before the upserts, strict mode keeps exactly the entries whose name is
    literally one of the raw [new_tags]. *)
Lemma lookup_strict_prune m new_tags ts :
  lookup m (strict_prune new_tags ts)
  = if existsb (String.eqb m) new_tags then lookup m ts else None.
Proof.
  unfold strict_prune. rewrite lookup_fold_pull.
  destruct (existsb (String.eqb m) new_tags) eqn:Ein.
  - destruct (existsb (String.eqb m) (strict_remove new_tags ts)) eqn:Er; [|reflexivity].
    apply existsb_eqb_In in Er. unfold strict_remove in Er.
    apply filter_In in Er as [_ Er]. rewrite Ein in Er. discriminate.
  - destruct (existsb (String.eqb m) (strict_remove new_tags ts)) eqn:Er; [reflexivity|].
    destruct (lookup m ts) as [e|] eqn:Hl; [|reflexivity].
    exfalso.
    assert (Hin : In m (strict_remove new_tags ts)).
    { unfold strict_remove. apply filter_In. split; [|now rewrite Ein].
      rewrite <- (lookup_name _ _ _ Hl). apply in_map.
      unfold lookup in Hl. now apply find_some in Hl. }
    apply existsb_eqb_In in Hin. congruence.
Qed.

Lemma tag_loop_keeps (clean : string -> string) cat ts new_tags expiration now tagged ts' cat' tg :
  tag_loop clean cat ts new_tags expiration now tagged = Ret (ts', cat', tg) ->
  keeps ts ts' /\ (forall m, new_since now m ts -> new_since now m ts').
Proof.
  revert cat ts expiration tagged.
  induction new_tags as [|nt rest IH]; simpl; intros cat ts expiration tagged H.
  - injection H as <- <- <-. split; [apply keeps_refl | auto].
  - destruct (is_blank nt); [eapply IH; exact H|].
    destruct (resolve cat (clean nt)) as [[t cat1]|err]; [|discriminate].
    set (x' := if truthy expiration then expiration else Tag.default_expiration t) in H.
    pose proof (keeps_apply_all x' now (extra_tags t) (ts, cat1)) as Hk.
    pose proof (new_since_apply_all x' now (extra_tags t) (ts, cat1)) as Hn.
    destruct (apply_all x' now (extra_tags t) (ts, cat1)) as [ts1 cat2].
    destruct (IH _ _ _ _ H) as [Hk' Hn']. simpl in Hk, Hn.
    split; [eapply keeps_trans; eauto | intros m Hm; apply Hn', Hn, Hm].
Qed.

(** C4 (amended): in strict mode, every current entry whose name is
    literally one of the raw [new_tags] keeps its entry ([first_seen]
    preserved); every current entry whose name is not literally among them
    is removed, and an entry of that name present afterwards was created by
    this call ([first_seen = now]), also when a raw name only normalises
    or resolves to it. *)
Theorem tag_strict_prunes_literal_names (clean : string -> string) (cat : Catalog)
  (o : Observable.t) (new_tags : list string) (expiration : option Z) (now : Z)
  (o' : Observable.t) (cat' : Catalog) :
  tag clean cat o new_tags true expiration now = Ret (o', cat') ->
  (forall m e, In m new_tags -> lookup m (Observable.tags o) = Some e ->
     exists e', lookup m (Observable.tags o') = Some e'
                /\ ObservableTag.first_seen e' = ObservableTag.first_seen e)
  /\ (forall m e', ~ In m new_tags -> lookup m (Observable.tags o') = Some e' ->
        ObservableTag.first_seen e' = now).
Proof.
  unfold tag. intros H.
  destruct (tag_loop clean cat (strict_prune new_tags (Observable.tags o)) new_tags
              expiration now false) as [[[ts cat1] tg]|err] eqn:E; [|discriminate].
  injection H as <- <-. simpl.
  destruct (tag_loop_keeps _ _ _ _ _ _ _ _ _ _ E) as [Hk Hn].
  split.
  - intros m e Hin Hl.
    assert (Hp : lookup m (strict_prune new_tags (Observable.tags o)) = Some e).
    { rewrite lookup_strict_prune. apply existsb_eqb_In in Hin. now rewrite Hin. }
    destruct (Hk m e Hp) as [e' [He' [Hf _]]]. eauto.
  - intros m e' Hnin Hl.
    apply (Hn m); [|exact Hl].
    intros e Hp. rewrite lookup_strict_prune in Hp.
    destruct (existsb (String.eqb m) new_tags) eqn:Ein; [|discriminate].
    apply existsb_eqb_In in Ein. contradiction.
Qed.

Lemma tag_strict_prunes_literal_names_witness :
  let o := Observable.mk "1.2.3.4" []
             [ObservableTag.mk "x" 1 1 None true; ObservableTag.mk "y" 2 2 None true] None in
  exists o' cat',
    tag clean_spec [] o ["y"] true None 5 = Ret (o', cat')
    /\ exists e', lookup "y" (Observable.tags o') = Some e' /\ ObservableTag.first_seen e' = 2.
Proof.
  intros o.
  destruct (tag clean_spec [] o ["y"] true None 5) as [[o' cat']|err] eqn:E;
    [|vm_compute in E; discriminate].
  exists o', cat'. split; [reflexivity|].
  destruct (tag_strict_prunes_literal_names clean_spec [] o ["y"] None 5 o' cat' E) as [Ha _].
  exact (Ha "y" (ObservableTag.mk "y" 2 2 None true) (or_introl eq_refl) eq_refl).
Defined.

(** C4 counterexample: a current tag "b" reached from the raw name only
    through an alias ("legacy") or after trimming (" b") is removed and
    re-added as a new entry ([first_seen] 0 becomes 5). *)
Lemma tag_strict_removes_resolved_name :
  let o := Observable.mk "1.2.3.4" [] [ObservableTag.mk "b" 0 0 None true] None in
  match tag clean_spec [Tag.mk "b" ["legacy"] [] None 1] o ["legacy"] true None 5,
        tag clean_spec [Tag.mk "b" [] [] None 1] o [" b"] true None 5 with
  | Ret (o1, _), Ret (o2, _) =>
    lookup "b" (Observable.tags o1) = Some (ObservableTag.mk "b" 5 5 None true)
    /\ lookup "b" (Observable.tags o2) = Some (ObservableTag.mk "b" 5 5 None true)
  | _, _ => False
  end.
Proof. vm_compute. split; reflexivity. Qed.

(** * Further properties of the observable operations *)

(** ** [untag] *)

Lemma fold_pull_filter ns ts :
  fold_left (fun acc n => pull n acc) ns ts
  = filter (fun e => negb (existsb (String.eqb (ObservableTag.name e)) ns)) ts.
Proof.
  revert ts; induction ns as [|n r IH]; simpl; intros ts.
  - symmetry. apply filter_all_true. reflexivity.
  - rewrite IH. unfold pull. clear IH.
    induction ts as [|e ts IHts]; simpl; [reflexivity|].
    destruct (String.eqb (ObservableTag.name e) n); simpl; [exact IHts|].
    destruct (existsb (String.eqb (ObservableTag.name e)) r); simpl;
      [exact IHts | now rewrite IHts].
Qed.

(** [untag o names] removes every entry whose name is one of [names] and
    keeps all the other entries, in order; nothing else changes. *)
Theorem untag_removes_exactly (o : Observable.t) (names : list string) :
  Observable.tags (untag o names)
  = filter (fun e => negb (existsb (String.eqb (ObservableTag.name e)) names))
      (Observable.tags o)
  /\ Observable.value (untag o names) = Observable.value o
  /\ Observable.context (untag o names) = Observable.context o
  /\ Observable.last_tagged (untag o names) = Observable.last_tagged o
  /\ (forall n, In n names -> has_tag (untag o names) n = false).
Proof.
  unfold untag, has_tag; simpl. rewrite fold_pull_filter.
  repeat split. intros n Hn.
  destruct (has_tag_name n _) eqn:E; [|reflexivity].
  apply has_tag_name_lookup in E as [e He].
  unfold lookup in He. apply find_some in He as [Hin He].
  apply filter_In in Hin as [_ Hin]. apply String.eqb_eq in He. subst n.
  apply (existsb_eqb_In (ObservableTag.name e)) in Hn. now rewrite Hn in Hin.
Qed.

Lemma filter_all_true_in {A} (f : A -> bool) l :
  (forall x, In x l -> f x = true) -> filter f l = l.
Proof.
  induction l as [|x r IH]; simpl; intros Hf; [reflexivity|].
  rewrite Hf by auto. rewrite IH by auto. reflexivity.
Qed.

(** Untagging names none of which is applied leaves the observable
    unchanged. *)
Theorem untag_absent_noop (o : Observable.t) (names : list string) :
  (forall n, In n names -> has_tag o n = false) -> untag o names = o.
Proof.
  intros H. unfold untag, set_tags. rewrite fold_pull_filter, filter_all_true_in.
  - destruct o; reflexivity.
  - intros e Hin. destruct (existsb (String.eqb (ObservableTag.name e)) names) eqn:E;
      [|reflexivity].
    exfalso. apply existsb_eqb_In, H in E. unfold has_tag in E.
    assert (has_tag_name (ObservableTag.name e) (Observable.tags o) = true)
      by (apply has_tag_name_In, in_map, Hin).
    congruence.
Qed.

Lemma untag_absent_noop_witness :
  let o := Observable.mk "1.2.3.4" [] [ObservableTag.mk "x" 0 0 None true] None in
  (forall n, In n ["y"; "z"] -> has_tag o n = false) /\ untag o ["y"; "z"] = o.
Proof.
  intros o.
  assert (H : forall n, In n ["y"; "z"] -> has_tag o n = false).
  { intros n [<-|[<-|[]]]; reflexivity. }
  split; [exact H | exact (untag_absent_noop o ["y"; "z"] H)].
Defined.

(** ** Readers of the tag list *)

(** [has_tag o n] holds iff [n] is among all the tag names
    ([get_tags o False]); [fresh_tags] lists the entries whose names
    [get_tags o] returns. *)
Theorem has_tag_fresh_tags_readers (o : Observable.t) :
  (forall n, has_tag o n = true <-> In n (get_tags o false))
  /\ map ObservableTag.name (fresh_tags o) = get_tags o true.
Proof.
  unfold get_tags, fresh_tags. split.
  - intros n. rewrite filter_all_true by (intros e; apply orb_true_r).
    apply has_tag_name_In.
  - f_equal. apply filter_ext. intros e. now rewrite orb_false_r.
Qed.

(** ** [tag] keeps the tag names unique and maintains [last_tagged] *)

Lemma nodup_filter_names (p : ObservableTag.t -> bool) ts :
  NoDup (map ObservableTag.name ts) -> NoDup (map ObservableTag.name (filter p ts)).
Proof.
  induction ts as [|e r IH]; simpl; intros Hnd; [constructor|].
  inversion Hnd as [|? ? Hnin Hnd']; subst.
  destruct (p e); simpl; [|auto].
  constructor; [|auto].
  intros Hin. apply Hnin. apply in_map_iff in Hin as [e' [He' Hin]].
  apply filter_In in Hin as [Hin _]. rewrite <- He'. now apply in_map.
Qed.

Lemma tag_loop_nodup (clean : string -> string) cat ts new_tags expiration now tagged ts' cat' tg :
  tag_loop clean cat ts new_tags expiration now tagged = Ret (ts', cat', tg) ->
  NoDup (map ObservableTag.name ts) -> NoDup (map ObservableTag.name ts').
Proof.
  revert cat ts expiration tagged.
  induction new_tags as [|nt rest IH]; simpl; intros cat ts expiration tagged H Hnd.
  - now injection H as <- <- <-.
  - destruct (is_blank nt); [eapply IH; eauto|].
    destruct (resolve cat (clean nt)) as [[t cat1]|err]; [|discriminate].
    set (x' := if truthy expiration then expiration else Tag.default_expiration t) in H.
    pose proof (nodup_apply_all x' now (extra_tags t) (ts, cat1) Hnd) as Hn.
    destruct (apply_all x' now (extra_tags t) (ts, cat1)) as [ts1 cat2].
    eapply IH; [exact H | exact Hn].
Qed.

Lemma tag_loop_tagged (clean : string -> string) cat ts new_tags expiration now tagged ts' cat' tg :
  tag_loop clean cat ts new_tags expiration now tagged = Ret (ts', cat', tg) ->
  tg = tagged || existsb (fun n => negb (is_blank n)) new_tags.
Proof.
  revert cat ts expiration tagged.
  induction new_tags as [|nt rest IH]; simpl; intros cat ts expiration tagged H.
  - injection H as _ _ <-. now rewrite orb_false_r.
  - destruct (is_blank nt); simpl; [eapply IH; eauto|].
    destruct (resolve cat (clean nt)) as [[t cat1]|err]; [|discriminate].
    destruct (apply_all _ now (extra_tags t) (ts, cat1)) as [ts1 cat2].
    rewrite (IH _ _ _ _ H). now rewrite !orb_true_r.
Qed.

Lemma tag_loop_blank (clean : string -> string) cat ts new_tags expiration now tagged :
  forallb is_blank new_tags = true ->
  tag_loop clean cat ts new_tags expiration now tagged = Ret (ts, cat, tagged).
Proof.
  revert expiration; induction new_tags as [|nt rest IH]; simpl; intros expiration H;
    [reflexivity|].
  apply andb_true_iff in H as [H1 H2]. rewrite H1. now apply IH.
Qed.

(** Whatever the names, the strictness and the catalog, a successful
    [tag] call on an observable whose tag names are unique leaves them
    unique: the two-step upsert never appends a second entry of a name. *)
Theorem tag_keeps_names_unique (clean : string -> string) (cat : Catalog)
  (o : Observable.t) (new_tags : list string) (strict : bool) (expiration : option Z)
  (now : Z) (o' : Observable.t) (cat' : Catalog) :
  NoDup (map ObservableTag.name (Observable.tags o)) ->
  tag clean cat o new_tags strict expiration now = Ret (o', cat') ->
  NoDup (map ObservableTag.name (Observable.tags o')).
Proof.
  intros Hnd H. unfold tag in H.
  set (ts0 := if strict then strict_prune new_tags (Observable.tags o)
              else Observable.tags o) in H.
  assert (Hnd0 : NoDup (map ObservableTag.name ts0)).
  { unfold ts0; destruct strict; [|exact Hnd].
    unfold strict_prune. rewrite fold_pull_filter. now apply nodup_filter_names. }
  destruct (tag_loop clean cat ts0 new_tags expiration now false) as [[[ts cat1] tg]|err]
    eqn:E; [|discriminate].
  injection H as <- <-. simpl. eapply tag_loop_nodup; eauto.
Qed.

Lemma tag_keeps_names_unique_witness :
  let o := Observable.mk "1.2.3.4" [] [ObservableTag.mk "x" 0 0 None true] None in
  let cat := [Tag.mk "x" [] ["y"] None 1; Tag.mk "y" [] ["x"] None 0] in
  exists o' cat',
    tag clean_spec cat o ["x"; "y"; " x"] true None 7 = Ret (o', cat')
    /\ NoDup (map ObservableTag.name (Observable.tags o')).
Proof.
  intros o cat.
  destruct (tag clean_spec cat o ["x"; "y"; " x"] true None 7) as [[o' cat']|err] eqn:E;
    [|vm_compute in E; discriminate].
  exists o', cat'. split; [reflexivity|].
  apply (tag_keeps_names_unique clean_spec cat o ["x"; "y"; " x"] true None 7 o' cat'); [|exact E].
  simpl. constructor; [simpl; tauto | constructor].
Defined.

(** A non-strict [tag] call whose names are all blank changes neither the
    observable nor the catalog. *)
Theorem tag_blank_names_noop (clean : string -> string) (cat : Catalog)
  (o : Observable.t) (new_tags : list string) (expiration : option Z) (now : Z) :
  forallb is_blank new_tags = true ->
  tag clean cat o new_tags false expiration now = Ret (o, cat).
Proof.
  intros H. unfold tag. rewrite tag_loop_blank by exact H.
  destruct o; reflexivity.
Qed.

Lemma tag_blank_names_noop_witness :
  forallb is_blank [" "; "  "; "   "] = true
  /\ tag clean_spec [] (Observable.mk "1.2.3.4" [] [] None) [" "; "  "; "   "] false None 3
     = Ret (Observable.mk "1.2.3.4" [] [] None, []).
Proof.
  split; [reflexivity|].
  apply tag_blank_names_noop. reflexivity.
Defined.

(** A successful [tag] call stamps [last_tagged] with the call time exactly
    when one of the names is not blank, and otherwise leaves it as it was;
    after a stamping call, [get_last_tagged] returns that time and leaves
    the observable unchanged. *)
Theorem tag_last_tagged (clean : string -> string) (cat : Catalog)
  (o : Observable.t) (new_tags : list string) (strict : bool) (expiration : option Z)
  (now : Z) (o' : Observable.t) (cat' : Catalog) :
  tag clean cat o new_tags strict expiration now = Ret (o', cat') ->
  Observable.last_tagged o' =
    (if existsb (fun n => negb (is_blank n)) new_tags then Some now
     else Observable.last_tagged o)
  /\ (existsb (fun n => negb (is_blank n)) new_tags = true ->
      get_last_tagged o' = (o', now)).
Proof.
  intros H. unfold tag in H.
  destruct (tag_loop clean cat _ new_tags expiration now false) as [[[ts cat1] tg]|err]
    eqn:E; [|discriminate].
  apply tag_loop_tagged in E. simpl in E. subst tg.
  injection H as <- <-.
  destruct (existsb (fun n => negb (is_blank n)) new_tags); simpl.
  - split; [reflexivity|]. intros _. unfold get_last_tagged. simpl. reflexivity.
  - split; [reflexivity|]. discriminate.
Qed.

Lemma tag_last_tagged_witness :
  exists o' cat',
    tag clean_spec [] (Observable.mk "1.2.3.4" [] [] None) ["x"] false None 9 = Ret (o', cat')
    /\ Observable.last_tagged o' = Some 9 /\ get_last_tagged o' = (o', 9).
Proof.
  destruct (tag clean_spec [] (Observable.mk "1.2.3.4" [] [] None) ["x"] false None 9)
    as [[o' cat']|err] eqn:E; [|vm_compute in E; discriminate].
  exists o', cat'.
  destruct (tag_last_tagged clean_spec [] (Observable.mk "1.2.3.4" [] [] None) ["x"] false None 9
              o' cat' E) as [H1 H2].
  split; [reflexivity|]. split; [exact H1|]. apply H2. reflexivity.
Defined.




(** ** [change_tag] and [change_all_tags] on the tag names *)

Lemma in_map_rename old_tag new_tag l m :
  In m (map (rename_name old_tag new_tag) l)
  <-> (In m l /\ m <> old_tag) \/ (m = new_tag /\ In old_tag l).
Proof.
  rewrite in_map_iff. unfold rename_name. split.
  - intros [x [Hx Hin]].
    destruct (String.eqb_spec x old_tag) as [Hx'|Hne].
    + subst x. right. split; [congruence | exact Hin].
    + left. subst m. split; [exact Hin | exact Hne].
  - intros [[Hin Hne]|[-> Hin]].
    + exists m. split; [|exact Hin]. destruct (String.eqb_spec m old_tag); congruence.
    + exists old_tag. now rewrite String.eqb_refl.
Qed.

Lemma nodup_map_rename old_tag new_tag l :
  NoDup l -> ~ In new_tag l -> NoDup (map (rename_name old_tag new_tag) l).
Proof.
  induction l as [|n r IH]; simpl; intros Hnd Hnew; [constructor|].
  inversion Hnd as [|? ? Hnin Hnd']; subst.
  constructor; [|apply IH; tauto].
  rewrite in_map_rename. unfold rename_name.
  destruct (String.eqb_spec n old_tag) as [->|Hne].
  - intros [[Hin _]|[_ Hin]]; [apply Hnew; now right | exact (Hnin Hin)].
  - intros [[Hin _]|[-> _]]; [exact (Hnin Hin) | apply Hnew; now left].
Qed.

Lemma in_names_pull old_tag ts m :
  In m (map ObservableTag.name (pull old_tag ts))
  <-> In m (map ObservableTag.name ts) /\ m <> old_tag.
Proof.
  unfold pull. rewrite !in_map_iff. split.
  - intros [e [<- Hin]]. apply filter_In in Hin as [Hin Hb].
    split; [now exists e|]. intros He. rewrite He, String.eqb_refl in Hb. discriminate.
  - intros [[e [<- Hin]] Hne]. exists e. split; [reflexivity|].
    apply filter_In. split; [exact Hin|].
    destruct (String.eqb_spec (ObservableTag.name e) old_tag); [contradiction|reflexivity].
Qed.

Lemma change_tag_names_spec (o : Observable.t) (old_tag new_tag : string) (now : Z) :
  NoDup (map ObservableTag.name (Observable.tags o)) ->
  old_tag <> new_tag ->
  let names' := map ObservableTag.name (Observable.tags (change_tag o old_tag new_tag now)) in
  NoDup names'
  /\ (forall m, In m names'
       <-> (In m (map ObservableTag.name (Observable.tags o)) /\ m <> old_tag)
           \/ (m = new_tag /\ In old_tag (map ObservableTag.name (Observable.tags o)))).
Proof.
  intros Hnd Hne names'. subst names'.
  set (ts := Observable.tags o) in *.
  unfold change_tag; fold ts.
  destruct (has_tag_name old_tag ts) eqn:Hold, (has_tag_name new_tag ts) eqn:Hnew; simpl.
  1, 3, 4:
    rewrite names_touch_first; unfold pull;
    split; [now apply nodup_filter_names|];
    intros m; fold (pull old_tag ts); rewrite in_names_pull;
    split; [tauto|];
    intros [H|[-> Hin]]; [exact H|];
    split; [apply has_tag_name_In; first [exact Hnew | apply has_tag_name_In in Hin; congruence]
           | congruence].
  rewrite names_rename_first by exact Hnd.
  split; [apply nodup_map_rename; [exact Hnd|]|].
  - intros Hin. apply has_tag_name_In in Hin. congruence.
  - intros m. apply in_map_rename.
Qed.

(** On an observable with unique tag names and [old <> new], [change_tag]
    keeps the names unique, and afterwards a name is present exactly when
    it was present and is not [old], or it is [new] and [old] was present. *)
Theorem change_tag_names (o : Observable.t) (old_tag new_tag : string) (now : Z) :
  NoDup (map ObservableTag.name (Observable.tags o)) ->
  old_tag <> new_tag ->
  let names' := map ObservableTag.name (Observable.tags (change_tag o old_tag new_tag now)) in
  NoDup names'
  /\ (forall m, In m names'
       <-> (In m (map ObservableTag.name (Observable.tags o)) /\ m <> old_tag)
           \/ (m = new_tag /\ In old_tag (map ObservableTag.name (Observable.tags o)))).
Proof. exact (change_tag_names_spec o old_tag new_tag now). Qed.

Lemma change_tag_names_witness :
  let o := Observable.mk "1.2.3.4" []
             [ObservableTag.mk "old" 1 2 None true; ObservableTag.mk "k" 3 4 None true] None in
  NoDup (map ObservableTag.name (Observable.tags o)) /\ "old" <> "new"
  /\ NoDup (map ObservableTag.name (Observable.tags (change_tag o "old" "new" 9))).
Proof.
  intros o.
  assert (Hnd : NoDup (map ObservableTag.name (Observable.tags o))).
  { simpl. constructor; [simpl; intros [H|H]; [discriminate|exact H]|].
    constructor; [simpl; tauto | constructor]. }
  assert (Hne : "old" <> "new") by discriminate.
  split; [exact Hnd|]. split; [exact Hne|].
  exact (proj1 (change_tag_names o "old" "new" 9 Hnd Hne)).
Defined.

Lemma change_tag_has (o : Observable.t) (old_tag new_tag : string) (now : Z) (m : string) :
  NoDup (map ObservableTag.name (Observable.tags o)) ->
  old_tag <> new_tag ->
  has_tag (change_tag o old_tag new_tag now) m
  = if String.eqb m old_tag then false
    else if String.eqb m new_tag then has_tag o new_tag || has_tag o old_tag
    else has_tag o m.
Proof.
  intros Hnd Hne.
  destruct (change_tag_names_spec o old_tag new_tag now Hnd Hne) as [_ Hin].
  unfold has_tag. apply Bool.eq_true_iff_eq.
  rewrite has_tag_name_In, Hin.
  destruct (String.eqb_spec m old_tag) as [->|Hmo].
  - split; [intros [[_ H]|[H _]]; congruence | discriminate].
  - destruct (String.eqb_spec m new_tag) as [->|Hmn].
    + rewrite orb_true_iff, !has_tag_name_In. tauto.
    + rewrite has_tag_name_In. split; [intros [[H _]|[H _]]; [exact H | congruence] | tauto].
Qed.

Lemma change_tag_fields (o : Observable.t) (old_tag new_tag : string) (now : Z) :
  Observable.value (change_tag o old_tag new_tag now) = Observable.value o
  /\ Observable.context (change_tag o old_tag new_tag now) = Observable.context o
  /\ Observable.last_tagged (change_tag o old_tag new_tag now) = Observable.last_tagged o.
Proof.
  unfold change_tag. destruct (_ && _); unfold set_tags; simpl; auto.
Qed.

Lemma existsb_ext_In {A} (f g : A -> bool) l :
  (forall y, In y l -> f y = g y) -> existsb f l = existsb g l.
Proof.
  induction l as [|y r IH]; simpl; intros H; [reflexivity|].
  rewrite (H y (or_introl eq_refl)), IH; [reflexivity|]. intros z Hz; apply H; now right.
Qed.

Lemma existsb_skip_old (o : Observable.t) (old_tag : string) (r : list string) :
  has_tag o old_tag
  || existsb (fun y => if String.eqb y old_tag then false else has_tag o y) r
  = has_tag o old_tag || existsb (has_tag o) r.
Proof.
  induction r as [|y r IH]; simpl; [reflexivity|].
  destruct (String.eqb_spec y old_tag) as [->|_]; simpl.
  - destruct (has_tag o old_tag); simpl; [reflexivity|exact IH].
  - destruct (has_tag o old_tag), (has_tag o y); simpl; auto.
Qed.

Lemma fold_change_tag (old_tags : list string) (new_tag : string) (now : Z) :
  ~ In new_tag old_tags ->
  forall o, NoDup (map ObservableTag.name (Observable.tags o)) ->
  let o' := fold_left (fun o' old_tag => change_tag o' old_tag new_tag now) old_tags o in
  NoDup (map ObservableTag.name (Observable.tags o'))
  /\ Observable.value o' = Observable.value o
  /\ Observable.context o' = Observable.context o
  /\ Observable.last_tagged o' = Observable.last_tagged o
  /\ (forall m, has_tag o' m
       = if existsb (String.eqb m) old_tags then false
         else if String.eqb m new_tag then existsb (has_tag o) (new_tag :: old_tags)
         else has_tag o m).
Proof.
  induction old_tags as [|x r IH]; simpl; intros Hnew o Hnd.
  - repeat split; auto. intros m.
    destruct (String.eqb_spec m new_tag) as [->|_]; [now rewrite orb_false_r|reflexivity].
  - assert (Hxn : x <> new_tag) by (intros ->; apply Hnew; now left).
    set (o1 := change_tag o x new_tag now).
    destruct (change_tag_names_spec o x new_tag now Hnd Hxn) as [Hnd1 _].
    destruct (IH (fun H => Hnew (or_intror H)) o1 Hnd1) as [H1 [H2 [H3 [H4 H5]]]].
    destruct (change_tag_fields o x new_tag now) as [F1 [F2 F3]].
    split; [exact H1|]. split; [unfold o1 in *; congruence|].
    split; [unfold o1 in *; congruence|]. split; [unfold o1 in *; congruence|].
    intros m. rewrite H5. unfold o1. cbn [existsb]. rewrite !change_tag_has by assumption.
    rewrite String.eqb_refl.
    destruct (String.eqb_spec new_tag x) as [Hc|_]; [congruence|].
    assert (Hr : existsb (has_tag (change_tag o x new_tag now)) r
                 = existsb (fun y => if String.eqb y x then false else has_tag o y) r).
    { apply existsb_ext_In. intros y Hy. rewrite change_tag_has by assumption.
      destruct (String.eqb y x); [reflexivity|].
      destruct (String.eqb_spec y new_tag) as [->|_]; [|reflexivity].
      exfalso; apply Hnew; now right. }
    rewrite Hr.
    destruct (String.eqb_spec m x) as [->|Hmx]; simpl.
    + destruct (String.eqb_spec x new_tag); [congruence|].
      destruct (existsb (String.eqb x) r); reflexivity.
    + destruct (existsb (String.eqb m) r); [reflexivity|].
      destruct (String.eqb m new_tag); [|reflexivity].
      rewrite <- orb_assoc, existsb_skip_old. now rewrite orb_assoc.
Qed.

(** With [new] not among [old_tags] and unique tag names on every
    observable, [change_all_tags] keeps the list of observables and, on
    each one, keeps the tag names unique and leaves value, context and
    [last_tagged] alone; afterwards no observable carries a name of
    [old_tags], an observable carries [new] when it carried [new] or one of
    [old_tags], and every other name is as before. *)
Theorem change_all_tags_replaces (db : list Observable.t) (old_tags : list string)
  (new_tag : string) (now : Z) :
  ~ In new_tag old_tags ->
  (forall o, In o db -> NoDup (map ObservableTag.name (Observable.tags o))) ->
  let db' := change_all_tags db old_tags new_tag now in
  length db' = length db
  /\ forall i o, nth_error db i = Some o ->
     exists o', nth_error db' i = Some o'
       /\ Observable.value o' = Observable.value o
       /\ Observable.context o' = Observable.context o
       /\ Observable.last_tagged o' = Observable.last_tagged o
       /\ NoDup (map ObservableTag.name (Observable.tags o'))
       /\ (forall m, has_tag o' m
            = if existsb (String.eqb m) old_tags then false
              else if String.eqb m new_tag then existsb (has_tag o) (new_tag :: old_tags)
              else has_tag o m).
Proof.
  intros Hnew Hnd db'. unfold db', change_all_tags.
  split; [apply length_map|].
  intros i o Hi. rewrite nth_error_map, Hi. simpl.
  eexists; split; [reflexivity|].
  pose proof (Hnd o (nth_error_In _ _ Hi)) as Hndo.
  destruct (existsb (fun n => has_tag_name n (Observable.tags o)) old_tags) eqn:E.
  - destruct (fold_change_tag old_tags new_tag now Hnew o Hndo) as [F1 [F2 [F3 [F4 F5]]]].
    split; [exact F2|]. split; [exact F3|]. split; [exact F4|]. split; [exact F1|exact F5].
  - repeat (split; [reflexivity|]). split; [exact Hndo|].
    intros m. simpl.
    destruct (existsb (String.eqb m) old_tags) eqn:Em.
    + apply existsb_eqb_In in Em.
      destruct (has_tag o m) eqn:Hm; [|reflexivity].
      assert (existsb (fun n => has_tag_name n (Observable.tags o)) old_tags = true)
        by (apply existsb_exists; now exists m).
      congruence.
    + destruct (String.eqb_spec m new_tag) as [->|_]; [|reflexivity].
      replace (existsb (has_tag o) old_tags) with false by (symmetry; exact E).
      now rewrite orb_false_r.
Qed.

Lemma change_all_tags_replaces_witness :
  let db := [Observable.mk "1.2.3.4" [] [ObservableTag.mk "a" 1 2 None true] None;
             Observable.mk "5.6.7.8" [] [ObservableTag.mk "c" 1 2 None true] None] in
  ~ In "b" ["a"]
  /\ (forall o, In o db -> NoDup (map ObservableTag.name (Observable.tags o)))
  /\ length (change_all_tags db ["a"] "b" 9) = 2%nat.
Proof.
  intros db.
  assert (Hn : ~ In "b" ["a"]) by (simpl; intros [H|H]; [discriminate|exact H]).
  assert (Hd : forall o, In o db -> NoDup (map ObservableTag.name (Observable.tags o))).
  { intros o [<-|[<-|[]]]; simpl; constructor; [tauto|constructor|tauto|constructor]. }
  split; [exact Hn|]. split; [exact Hd|].
  exact (proj1 (change_all_tags_replaces db ["a"] "b" 9 Hn Hd)).
Defined.

(** ** [add_context]: what is stored, idempotence and key order *)

Lemma context_eqb_eq (a b : Context) : context_eqb a b = true <-> a = b.
Proof.
  revert b; induction a as [|[k v] a IH]; intros [|[k' v'] b]; simpl;
    try (split; [discriminate | congruence]).
  - split; reflexivity.
  - rewrite !andb_true_iff, IH, !String.eqb_eq. split.
    + intros [[-> ->] ->]; reflexivity.
    + intros H; injection H as -> -> ->; auto.
Qed.

Lemma existsb_context_eqb (c : Context) (cs : list Context) :
  existsb (context_eqb c) cs = true <-> In c cs.
Proof.
  rewrite existsb_exists. split.
  - intros [x [Hin Hx]]. apply context_eqb_eq in Hx. now subst.
  - intros Hin. exists c. split; [exact Hin|]. now apply context_eqb_eq.
Qed.

Lemma in_add_to_set (c x : Context) (cs : list Context) :
  In x (add_to_set c cs) <-> x = c \/ In x cs.
Proof.
  unfold add_to_set. destruct (existsb (context_eqb c) cs) eqn:E.
  - apply existsb_context_eqb in E. split; [tauto|]. intros [->|H]; assumption.
  - rewrite in_app_iff. simpl. split; intros [H|H]; try tauto; intuition congruence.
Qed.

Lemma nodup_add_to_set (c : Context) (cs : list Context) :
  NoDup cs -> NoDup (add_to_set c cs).
Proof.
  unfold add_to_set. destruct (existsb (context_eqb c) cs) eqn:E; intros Hnd; [exact Hnd|].
  apply NoDup_app; [exact Hnd | repeat constructor; simpl; tauto |].
  intros x Hx [Hc|[]]. subst x. assert (existsb (context_eqb c) cs = true)
    by (now apply existsb_context_eqb). congruence.
Qed.

Lemma add_to_set_idem (c : Context) (cs : list Context) :
  add_to_set c (add_to_set c cs) = add_to_set c cs.
Proof.
  unfold add_to_set at 1.
  assert (H : In c (add_to_set c cs)) by (apply in_add_to_set; now left).
  apply existsb_context_eqb in H. now rewrite H.
Qed.

(** A successful [add_context] stores the context with its items sorted by
    key. Afterwards a context is present exactly when it is that sorted
    context, or it was present before and was not pulled: a non-empty
    [replace_source] pulls every context whose [source] is that value.
    Value, tags and [last_tagged] are unchanged, and if the contexts had
    no duplicate before, they have none after. *)
Theorem add_context_contexts (o : Observable.t) (ctx : Context)
  (replace_source : option string) :
  existsb (fun kv => String.eqb (fst kv) "source") ctx = true ->
  let (o2, r) := add_context o ctx replace_source in
  r = Ret o2
  /\ Observable.value o2 = Observable.value o
  /\ Observable.tags o2 = Observable.tags o
  /\ Observable.last_tagged o2 = Observable.last_tagged o
  /\ (forall x, In x (Observable.context o2)
       <-> x = sort_items ctx
           \/ (In x (Observable.context o)
               /\ match replace_source with
                  | Some rs => String.eqb rs "" = true \/ dict_lookup x "source" <> Some rs
                  | None => True
                  end))
  /\ (NoDup (Observable.context o) -> NoDup (Observable.context o2)).
Proof.
  intros Hs. unfold add_context. rewrite Hs. simpl.
  split; [reflexivity|]. split; [destruct replace_source as [rs|]; [destruct (String.eqb rs "")|]; reflexivity|].
  split; [destruct replace_source as [rs|]; [destruct (String.eqb rs "")|]; reflexivity|].
  split; [destruct replace_source as [rs|]; [destruct (String.eqb rs "")|]; reflexivity|].
  split.
  - intros x. rewrite in_add_to_set.
    destruct replace_source as [rs|]; [|simpl; tauto].
    destruct (String.eqb rs "") eqn:Ers; simpl; [tauto|].
    unfold pull_source. rewrite filter_In.
    destruct (dict_lookup x "source") as [s'|] eqn:Hx.
    + destruct (String.eqb_spec s' rs) as [->|Hne]; simpl.
      * split; [intros [H|[_ H]]; [now left | discriminate] | ].
        intros [H|[_ [H|H]]]; [now left | discriminate | congruence].
      * split; [intros [H|[H _]]; [now left | right; split; [exact H | right; congruence]]|].
        intros [H|[H _]]; [now left | right; split; [exact H | reflexivity]].
    + split; [intros [H|[H _]]; [now left | right; split; [exact H | right; discriminate]]|].
      intros [H|[H _]]; [now left | right; split; [exact H | reflexivity]].
  - intros Hnd. apply nodup_add_to_set.
    destruct replace_source as [rs|]; [|exact Hnd].
    destruct (String.eqb rs ""); simpl; [exact Hnd|].
    unfold pull_source. now apply NoDup_filter.
Qed.

Lemma add_context_contexts_witness :
  let o := Observable.mk "1.2.3.4" [[("source", "a")]; [("source", "b")]] [] None in
  existsb (fun kv => String.eqb (fst kv) "source") [("x", "1"); ("source", "a")] = true
  /\ In [("source", "b")]
       (Observable.context (fst (add_context o [("x", "1"); ("source", "a")] (Some "a")))).
Proof.
  intros o. split; [reflexivity|].
  pose proof (add_context_contexts o [("x", "1"); ("source", "a")] (Some "a") eq_refl) as H.
  destruct (add_context o [("x", "1"); ("source", "a")] (Some "a")) as [o2 r]. simpl.
  destruct H as [_ [_ [_ [_ [Hin _]]]]].
  apply Hin. right. split; [simpl; auto | right; discriminate].
Defined.

Lemma pull_source_idem (rs : string) (cs : list Context) :
  pull_source rs (pull_source rs cs) = pull_source rs cs.
Proof.
  unfold pull_source. induction cs as [|c r IH]; simpl; [reflexivity|].
  destruct (match dict_lookup c "source" with
            | Some s' => negb (String.eqb s' rs) | None => true end) eqn:E;
    simpl; [rewrite E; now f_equal | exact IH].
Qed.

Lemma pull_source_add (rs : string) (c : Context) (cs : list Context) :
  pull_source rs (add_to_set c (pull_source rs cs))
  = if (match dict_lookup c "source" with
        | Some s' => negb (String.eqb s' rs) | None => true end)
    then add_to_set c (pull_source rs cs) else pull_source rs cs.
Proof.
  unfold add_to_set. destruct (existsb (context_eqb c) (pull_source rs cs)) eqn:E.
  - rewrite pull_source_idem. destruct (match dict_lookup c "source" with
        | Some s' => negb (String.eqb s' rs) | None => true end); reflexivity.
  - unfold pull_source at 1. rewrite filter_app. fold (pull_source rs (pull_source rs cs)).
    rewrite pull_source_idem. simpl.
    destruct (match dict_lookup c "source" with
        | Some s' => negb (String.eqb s' rs) | None => true end); simpl;
      [reflexivity | now rewrite app_nil_r].
Qed.

(** [add_context] is idempotent: calling it a second time with the same
    context and [replace_source] on the observable the first call left
    gives the same observable and the same outcome. *)
Theorem add_context_idempotent (o : Observable.t) (ctx : Context)
  (replace_source : option string) :
  add_context (fst (add_context o ctx replace_source)) ctx replace_source
  = add_context o ctx replace_source.
Proof.
  unfold add_context.
  destruct (negb (existsb (fun kv => String.eqb (fst kv) "source") ctx)); [reflexivity|].
  simpl. set (c := sort_items ctx).
  destruct replace_source as [rs|].
  - destruct (String.eqb rs "") eqn:Ers; simpl.
    + now rewrite add_to_set_idem.
    + rewrite pull_source_add.
      destruct (match dict_lookup c "source" with
                | Some s' => negb (String.eqb s' rs) | None => true end);
        [now rewrite add_to_set_idem | reflexivity].
  - simpl. now rewrite add_to_set_idem.
Qed.

Lemma string_compare_OT (a b : string) : String.compare a b = String_as_OT.compare a b.
Proof. revert b; induction a as [|c a IH]; intros [|d b]; simpl; auto. Qed.

Lemma ltb_irrefl (a : string) : String.ltb a a = false.
Proof.
  unfold String.ltb. rewrite string_compare_OT.
  destruct (String_as_OT.compare a a) eqn:E; try reflexivity.
  exfalso. exact (@Corelib.Classes.RelationClasses.irreflexivity _ String_as_OT.lt _ a E).
Qed.

Lemma ltb_trans (a b c : string) :
  String.ltb a b = true -> String.ltb b c = true -> String.ltb a c = true.
Proof.
  unfold String.ltb. rewrite (string_compare_OT a b), (string_compare_OT b c),
    (string_compare_OT a c). intros H1 H2.
  destruct (String_as_OT.compare a b) eqn:E1; try discriminate.
  destruct (String_as_OT.compare b c) eqn:E2; try discriminate.
  assert (H : String_as_OT.lt a c)
    by exact (@Corelib.Classes.RelationClasses.transitivity _ String_as_OT.lt _ a b c E1 E2).
  unfold String_as_OT.lt in H. now rewrite H.
Qed.

Lemma ltb_total (a b : string) :
  a <> b -> String.ltb a b = false -> String.ltb b a = true.
Proof.
  unfold String.ltb. rewrite (String.compare_antisym b a).
  destruct (String.compare a b) eqn:E; simpl; try discriminate; auto.
  apply String.compare_eq_iff in E. contradiction.
Qed.

Lemma insert_item_perm (kv : string * string) (l : Context) :
  Permutation (insert_item kv l) (kv :: l).
Proof.
  induction l as [|kv' r IH]; simpl; [reflexivity|].
  destruct (String.ltb (fst kv') (fst kv)); [|reflexivity].
  rewrite IH. apply perm_swap.
Qed.

Lemma sort_items_perm (c : Context) : Permutation (sort_items c) c.
Proof.
  unfold sort_items; induction c as [|kv r IH]; simpl; [reflexivity|].
  rewrite insert_item_perm. now apply perm_skip.
Qed.

Lemma insert_item_sorted (kv : string * string) (l : Context) :
  StronglySorted key_lt l -> ~ In (fst kv) (map fst l) ->
  StronglySorted key_lt (insert_item kv l).
Proof.
  induction l as [|kv' r IH]; simpl; intros Hs Hn.
  - repeat constructor.
  - apply StronglySorted_inv in Hs as [Hs Hf].
    destruct (String.ltb (fst kv') (fst kv)) eqn:E.
    + constructor; [apply IH; tauto|].
      apply Forall_forall. intros x Hx.
      apply (Permutation_in _ (insert_item_perm kv r)) in Hx.
      destruct Hx as [<-|Hx]; [exact E|].
      rewrite Forall_forall in Hf. now apply Hf.
    + assert (Hlt : key_lt kv kv').
      { apply ltb_total; [intros Heq; apply Hn; now left | exact E]. }
      constructor; [constructor; assumption|].
      constructor; [exact Hlt|].
      rewrite Forall_forall in Hf |- *. intros x Hx.
      eapply ltb_trans; [exact Hlt | now apply Hf].
Qed.

Lemma sort_items_sorted (c : Context) :
  NoDup (map fst c) -> StronglySorted key_lt (sort_items c).
Proof.
  unfold sort_items; induction c as [|kv r IH]; simpl; intros Hnd; [constructor|].
  inversion Hnd as [|? ? Hnin Hnd']; subst.
  apply insert_item_sorted; [now apply IH|].
  intros Hin. apply Hnin.
  apply (Permutation_in _ (Permutation_map fst (sort_items_perm r))) in Hin.
  exact Hin.
Qed.

Lemma sorted_perm_eq (l l' : Context) :
  StronglySorted key_lt l -> StronglySorted key_lt l' -> Permutation l l' -> l = l'.
Proof.
  revert l'; induction l as [|a r IH]; intros l' Hs Hs' Hp.
  - symmetry. now apply Permutation_nil.
  - destruct l' as [|b r'].
    + apply Permutation_sym, Permutation_nil in Hp. discriminate.
    + apply StronglySorted_inv in Hs as [Hs Hf].
      apply StronglySorted_inv in Hs' as [Hs' Hf'].
      assert (Hab : a = b).
      { assert (Ha : In a (b :: r')) by (apply (Permutation_in _ Hp); now left).
        assert (Hb : In b (a :: r)) by (apply (Permutation_in _ (Permutation_sym Hp)); now left).
        destruct Ha as [Ha|Ha]; [now symmetry|].
        destruct Hb as [Hb|Hb]; [exact Hb|].
        rewrite Forall_forall in Hf, Hf'.
        pose proof (ltb_trans _ _ _ (Hf b Hb) (Hf' a Ha)) as H.
        rewrite ltb_irrefl in H. discriminate. }
      subst b. f_equal. apply IH; [exact Hs | exact Hs' |].
      exact (Permutation_cons_inv Hp).
Qed.

(** Two contexts with the same items (and no key twice, as a [dict] has)
    in any order sort to the same stored context. *)
Lemma sort_items_perm_eq (c c' : Context) :
  NoDup (map fst c) -> Permutation c c' -> sort_items c = sort_items c'.
Proof.
  intros Hnd Hp.
  assert (Hnd' : NoDup (map fst c'))
    by exact (Permutation_NoDup (Permutation_map fst Hp) Hnd).
  apply sorted_perm_eq; [now apply sort_items_sorted | now apply sort_items_sorted |].
  rewrite (sort_items_perm c), (sort_items_perm c'). exact Hp.
Qed.

Lemma existsb_perm {A} (f : A -> bool) (l l' : list A) :
  Permutation l l' -> existsb f l = existsb f l'.
Proof.
  intros Hp. apply Bool.eq_true_iff_eq. rewrite !existsb_exists.
  split; intros [x [Hx Hfx]]; exists x; split; try exact Hfx.
  - exact (Permutation_in _ Hp Hx).
  - exact (Permutation_in _ (Permutation_sym Hp) Hx).
Qed.

(** [add_context] does not depend on the order of the context's items:
    two contexts with the same items (no key twice) give the same
    observable and the same outcome, for any [replace_source]. *)
Theorem add_context_key_order (o : Observable.t) (ctx ctx' : Context)
  (replace_source : option string) :
  NoDup (map fst ctx) -> Permutation ctx ctx' ->
  add_context o ctx replace_source = add_context o ctx' replace_source.
Proof.
  intros Hnd Hp. unfold add_context.
  rewrite (existsb_perm _ _ _ Hp), (sort_items_perm_eq _ _ Hnd Hp). reflexivity.
Qed.

Lemma add_context_key_order_witness :
  NoDup (map fst [("source", "a"); ("port", "80")])
  /\ Permutation [("source", "a"); ("port", "80")] [("port", "80"); ("source", "a")]
  /\ add_context (Observable.mk "1.2.3.4" [] [] None) [("source", "a"); ("port", "80")] None
     = add_context (Observable.mk "1.2.3.4" [] [] None) [("port", "80"); ("source", "a")] None.
Proof.
  assert (Hnd : NoDup (map fst [("source", "a"); ("port", "80")])).
  { simpl. constructor; [simpl; intros [H|[]]; discriminate | constructor; [tauto|constructor]]. }
  assert (Hp : Permutation [("source", "a"); ("port", "80")] [("port", "80"); ("source", "a")])
    by apply perm_swap.
  split; [exact Hnd|]. split; [exact Hp|].
  exact (add_context_key_order _ _ _ None Hnd Hp).
Defined.

(** ** Re-tagging refreshes an entry *)

(** A [tag] call on one non-blank name that resolves to the catalog tag
    [t] succeeds, and leaves an entry named [Tag.name t] that is fresh and
    last seen at the call time; an entry of that name present before keeps
    its [first_seen] and expiration. In particular re-tagging an entry that
    [expire_tags] marked stale makes it fresh again. *)
Theorem tag_refreshes_entry (clean : string -> string) (cat : Catalog)
  (o : Observable.t) (x : string) (expiration : option Z) (now : Z)
  (t : Tag.t) (c : Catalog) :
  is_blank x = false -> resolve cat (clean x) = Ret (t, c) ->
  exists o' cat',
    tag clean cat o [x] false expiration now = Ret (o', cat')
    /\ exists e', lookup (Tag.name t) (Observable.tags o') = Some e'
       /\ ObservableTag.fresh e' = true
       /\ ObservableTag.last_seen e' = now
       /\ (forall e, lookup (Tag.name t) (Observable.tags o) = Some e ->
             ObservableTag.first_seen e' = ObservableTag.first_seen e
             /\ ObservableTag.expiration e' = ObservableTag.expiration e).
Proof.
  intros Hb Hr. rewrite (tag_one_name clean cat o x expiration now t c Hb Hr).
  eexists; eexists; split; [reflexivity|]. simpl.
  set (x' := if truthy expiration then expiration else Tag.default_expiration t).
  unfold extra_tags. rewrite lookup_apply_all_last.
  eexists; split; [reflexivity|].
  pose proof (keeps_apply_all x' now (Tag.produces t) (Observable.tags o, c)) as Hk.
  destruct (lookup (Tag.name t)
              (fst (apply_all x' now (Tag.produces t) (Observable.tags o, c)))) as [e0|] eqn:E0;
    simpl.
  - split; [reflexivity|]. split; [reflexivity|].
    intros e He. destruct (Hk _ _ He) as [e1 [He1 [Hf Hx]]]. simpl in He1.
    rewrite E0 in He1. injection He1 as <-. auto.
  - split; [reflexivity|]. split; [reflexivity|].
    intros e He. destruct (Hk _ _ He) as [e1 [He1 _]]. simpl in He1. congruence.
Qed.

Lemma tag_refreshes_entry_witness :
  let o := expire_tags
             (Observable.mk "1.2.3.4" [] [ObservableTag.mk "x" 1 5 (Some 10) true] None) 100 in
  is_blank "x" = false
  /\ resolve [Tag.mk "x" [] [] None 1] (clean_spec "x") = Ret (Tag.mk "x" [] [] None 1, [Tag.mk "x" [] [] None 1])
  /\ exists o' cat',
       tag clean_spec [Tag.mk "x" [] [] None 1] o ["x"] false None 200 = Ret (o', cat')
       /\ exists e', lookup "x" (Observable.tags o') = Some e'
          /\ ObservableTag.fresh e' = true /\ ObservableTag.last_seen e' = 200
          /\ (forall e, lookup "x" (Observable.tags o) = Some e ->
                ObservableTag.first_seen e' = ObservableTag.first_seen e
                /\ ObservableTag.expiration e' = ObservableTag.expiration e).
Proof.
  intros o. split; [reflexivity|]. split; [reflexivity|].
  exact (tag_refreshes_entry clean_spec [Tag.mk "x" [] [] None 1] o "x" None 200
           (Tag.mk "x" [] [] None 1) [Tag.mk "x" [] [] None 1] eq_refl eq_refl).
Defined.

(** ** [find_tags]: its errors and its keys *)

Lemma get_by_name_cases (cat : Catalog) (n : string) :
  (exists t, get_by_name cat n = Ret t) \/ get_by_name cat n = Raise DoesNotExist.
Proof.
  unfold get_by_name. destruct (find _ cat); [left; eauto | now right].
Qed.

Lemma find_tags_loop_error (cat : Catalog) (ts : list ObservableTag.t) (d : list (string * Z))
  (err : error) :
  find_tags_loop cat ts d = Raise err ->
  err = DoesNotExist
  /\ exists e, In e ts /\ get_by_name cat (ObservableTag.name e) = Raise DoesNotExist.
Proof.
  revert d; induction ts as [|e r IH]; simpl; intros d H; [discriminate|].
  destruct (get_by_name_cases cat (ObservableTag.name e)) as [[t Ht]|Ht]; rewrite Ht in H.
  - destruct (IH _ H) as [He [e' [Hin He']]]. split; [exact He|]. exists e'; auto.
  - injection H as <-. split; [reflexivity|]. exists e; auto.
Qed.

Lemma find_tags_loop_missing (cat : Catalog) (ts : list ObservableTag.t)
  (d : list (string * Z)) (e : ObservableTag.t) :
  In e ts -> get_by_name cat (ObservableTag.name e) = Raise DoesNotExist ->
  exists err, find_tags_loop cat ts d = Raise err.
Proof.
  revert d; induction ts as [|e' r IH]; simpl; intros d Hin He; [contradiction|].
  destruct (get_by_name_cases cat (ObservableTag.name e')) as [[t Ht]|Ht]; rewrite Ht.
  - destruct Hin as [<-|Hin]; [congruence|]. now apply IH.
  - eauto.
Qed.

(** [find_tags] fails exactly when one of the observable's tag names has
    no tag of that name in the catalog, and then with [DoesNotExist]. *)
Theorem find_tags_errors (cat : Catalog) (o : Observable.t) :
  (forall err, find_tags cat o = Raise err -> err = DoesNotExist)
  /\ ((exists err, find_tags cat o = Raise err)
      <-> exists e, In e (Observable.tags o)
                    /\ get_by_name cat (ObservableTag.name e) = Raise DoesNotExist).
Proof.
  unfold find_tags.
  destruct (find_tags_loop cat (Observable.tags o) []) as [d|err] eqn:E.
  - split; [discriminate|]. split; [intros [err H]; discriminate|].
    intros [e [Hin He]].
    destruct (find_tags_loop_missing cat (Observable.tags o) [] e Hin He) as [err H].
    congruence.
  - destruct (find_tags_loop_error cat _ _ err E) as [Herr Hex].
    split; [intros err' H; injection H as <-; exact Herr|].
    split; [intros _; exact Hex | intros _; eauto].
Qed.








(** ** [expire_tags] composes *)

Lemma expire_tag_compose (now1 now2 : Z) (e : ObservableTag.t) :
  now1 <= now2 -> expire_tag now2 (expire_tag now1 e) = expire_tag now2 e.
Proof.
  intros Hle. destruct e as [n f l x fr]. destruct x as [d|]; [|reflexivity].
  unfold expire_tag. cbn -[truthy].
  remember (truthy (Some d)) as b eqn:Hb.
  destruct b; cbn -[truthy]; rewrite <- ?Hb; cbn -[truthy]; [|reflexivity].
  destruct (Z.ltb_spec (l + d) now1); cbn -[truthy]; rewrite <- ?Hb; cbn -[truthy].
  - destruct (Z.ltb_spec (l + d) now2); [reflexivity | lia].
  - reflexivity.
Qed.

(** Expiring at [now1] and then at a later (or the same) [now2] gives the
    same observable as expiring once at [now2]; in particular
    [expire_tags] is idempotent. *)
Theorem expire_tags_compose (o : Observable.t) (now1 now2 : Z) :
  now1 <= now2 -> expire_tags (expire_tags o now1) now2 = expire_tags o now2.
Proof.
  intros Hle. unfold expire_tags, set_tags; simpl. f_equal.
  rewrite map_map. apply map_ext. intros e. now apply expire_tag_compose.
Qed.

Lemma expire_tags_compose_witness :
  let o := Observable.mk "1.2.3.4" []
             [ObservableTag.mk "a" 0 5 (Some 10) true; ObservableTag.mk "b" 0 50 (Some 10) true] None in
  20 <= 70 /\ expire_tags (expire_tags o 20) 70 = expire_tags o 70.
Proof.
  intros o. split; [lia|]. apply expire_tags_compose. lia.
Defined.

(** [sort_items] (the dict comprehension over [sorted(context.items())])
    returns the same items, with strictly increasing keys when no key
    occurs twice. *)
Theorem sort_items_sorted_perm (c : Context) :
  Permutation (sort_items c) c
  /\ (NoDup (map fst c) -> StronglySorted key_lt (sort_items c)).
Proof. split; [apply sort_items_perm | apply sort_items_sorted]. Qed.

(** ** [guess_type] on a non-blank string *)

Lemma find_some_first {A} (f : A -> bool) (l : list A) (x : A) :
  find f l = Some x ->
  f x = true /\ exists pre post, l = pre ++ x :: post /\ forall y, In y pre -> f y = false.
Proof.
  induction l as [|a r IH]; simpl; [discriminate|].
  destruct (f a) eqn:Ha.
  - intros H; injection H as <-. split; [exact Ha|]. exists [], r. split; [reflexivity|].
    intros y [].
  - intros H. destruct (IH H) as [Hx [pre [post [-> Hpre]]]]. split; [exact Hx|].
    exists (a :: pre), post. split; [reflexivity|].
    intros y [<-|Hy]; [exact Ha | now apply Hpre].
Qed.

(** On a string that is not blank, [guess_type] never returns [None]: it
    returns the first class of [Url, Ip, Email, Hostname, Hash] whose
    [check_type] accepts the string, and raises a [ValidationError] when
    no class accepts it. *)
Theorem guess_type_nonblank (check_type : variant -> string -> bool) (s : string) :
  is_blank s = false ->
  match guess_type check_type s with
  | Ret (Some t) =>
    check_type t s = true
    /\ exists pre post, [Url; Ip; Email; Hostname; Hash] = pre ++ t :: post
                        /\ forall t', In t' pre -> check_type t' s = false
  | Ret None => False
  | Raise (ValidationError _) => forall t, check_type t s = false
  | Raise _ => False
  end.
Proof.
  intros Hb. unfold guess_type. rewrite Hb.
  destruct (String.eqb_spec s "") as [->|_]; [discriminate|]. cbn [negb andb].
  destruct (find (fun t => check_type t s) [Url; Ip; Email; Hostname; Hash]) as [t|] eqn:E.
  - exact (find_some_first _ _ _ E).
  - intros t. apply (find_none _ _ E). destruct t; simpl; tauto.
Qed.

Lemma guess_type_nonblank_witness :
  let check := fun (t : variant) (_ : string) => match t with Hostname => true | _ => false end in
  is_blank "a.b" = false
  /\ guess_type check "a.b" = Ret (Some Hostname)
  /\ check Hostname "a.b" = true.
Proof.
  intros check. split; [reflexivity|]. split; [reflexivity|].
  pose proof (guess_type_nonblank check "a.b" eq_refl) as H.
  vm_compute in H. exact (proj1 H).
Defined.
